(** * PySeqSt: sequence registry, hit matching, structure reconciliation

    A shallow embedding of the core of PySeqSt (seq.py, bl.py, pd.py, af.py,
    the reading of FASTA files and the output folder of fp.py, and the flow
    of PySeqSt.py), the properties of its specification that hold, or fail,
    on it, and further properties read off the code.

    Conventions of the embedding.
    - A Python [str] is a [string] whose characters are the code points
      below 256; the built-in string methods below are the restrictions of
      Python's to that range.
    - A Python [int] is a [Z] (or an [N] where the code only counts).
    - A [dict] whose iteration order the code observes is an association
      list in insertion order ([Dict]); one that is only read by key is a
      [gmap]; a [set] is a [gset].
    - Exceptions and [sys.exit] are the constructors of [result].
    - The remote services are functions from the request to the response. *)

From Stdlib Require Import ZArith QArith Ascii String List Lia.
From Stdlib Require Import DecimalString DecimalPos DecimalN.
From stdpp Require Import gmap strings list.

Set Default Proof Using "Type".
Local Open Scope Z_scope.

#[global] Arguments Ascii.eqb : simpl never.

(** ** Outcomes of a call *)

Inductive exn : Type :=
| IndexError
| KeyError
| ValueError
| ReError.

(** [Ok] is a normal return, [Raise] an exception that reaches the caller,
    [Exit] a call of [sys.exit], and [Unmodelled] marks an input on which the
    embedding of the [re] module gives no answer (see [Re.compile]). *)
Inductive result (A : Type) : Type :=
| Ok (a : A)
| Raise (e : exn)
| Exit (msg : string)
| Unmodelled.

Arguments Ok {A} a.
Arguments Raise {A} e.
Arguments Exit {A} msg.
Arguments Unmodelled {A}.

Global Instance result_ret : MRet result := @Ok.

Global Instance result_bind : MBind result := fun A B k m =>
  match m with
  | Ok a => k a
  | Raise e => Raise e
  | Exit msg => Exit msg
  | Unmodelled => Unmodelled
  end.

(** ** The methods of [str] the program calls *)

Module PyStr.

Definition code (c : ascii) : N := N_of_ascii c.

(** [str.isspace] on one character. *)
Definition is_space (c : ascii) : bool :=
  let n := code c in
  ((9 <=? n) && (n <=? 13) || (28 <=? n) && (n <=? 32)
   || (n =? 133) || (n =? 160))%N.

Definition is_digit (c : ascii) : bool :=
  let n := code c in ((48 <=? n) && (n <=? 57))%N.

Fixpoint lstrip (s : string) : string :=
  match s with
  | EmptyString => EmptyString
  | String c s' => if is_space c then lstrip s' else s
  end.

Fixpoint rstrip (s : string) : string :=
  match s with
  | EmptyString => EmptyString
  | String c s' =>
      match rstrip s' with
      | EmptyString => if is_space c then EmptyString else String c EmptyString
      | r => String c r
      end
  end.

(** [s.strip()] *)
Definition strip (s : string) : string := lstrip (rstrip s).

(** The upper case of one character. The sharp s becomes two letters. The
    micro sign and the y with diaeresis, whose upper cases lie above 255,
    are left as they are: like their upper cases they belong to no valid
    sequence, so no comparison or validation of the program tells the
    difference. *)
Definition upper_char (c : ascii) : string :=
  let n := code c in
  if ((97 <=? n) && (n <=? 122))%N then String (ascii_of_N (n - 32)) EmptyString
  else if (n =? 223)%N then "SS"
  else if ((224 <=? n) && (n <=? 254) && negb (n =? 247))%N
       then String (ascii_of_N (n - 32)) EmptyString
  else String c EmptyString.

(** [s.upper()] *)
Fixpoint upper (s : string) : string :=
  match s with
  | EmptyString => EmptyString
  | String c s' => upper_char c +:+ upper s'
  end.

(** The split of [s] at its last underscore, if it has one. *)
Fixpoint rcut (s : string) : option (string * string) :=
  match s with
  | EmptyString => None
  | String c s' =>
      match rcut s' with
      | Some (h, t) => Some (String c h, t)
      | None => if Ascii.eqb c "_" then Some (EmptyString, s') else None
      end
  end.

(** [s.rsplit("_", 1)] *)
Definition rsplit1 (s : string) : list string :=
  match rcut s with
  | Some (h, t) => [h; t]
  | None => [s]
  end.

(** The split of [s] at its first underscore, if it has one. *)
Fixpoint cut (s : string) : option (string * string) :=
  match s with
  | EmptyString => None
  | String c s' =>
      if Ascii.eqb c "_" then Some (EmptyString, s')
      else match cut s' with
           | Some (h, t) => Some (String c h, t)
           | None => None
           end
  end.

(** [s.split("_", 1)] *)
Definition split1 (s : string) : list string :=
  match cut s with
  | Some (h, t) => [h; t]
  | None => [s]
  end.

(** [sep.join(l)] *)
Fixpoint join (sep : string) (l : list string) : string :=
  match l with
  | [] => EmptyString
  | [x] => x
  | x :: l' => x +:+ sep +:+ join sep l'
  end.

Fixpoint all_digits (s : string) : bool :=
  match s with
  | EmptyString => true
  | String c s' => is_digit c && all_digits s'
  end.

(** [s.isdecimal()] *)
Definition isdecimal (s : string) : bool :=
  match s with
  | EmptyString => false
  | _ => all_digits s
  end.

(** [int(s)] for a decimal [s] (the only strings the program converts). *)
Definition int (s : string) : N :=
  match NilZero.uint_of_string s with
  | Some u => N.of_uint u
  | None => 0%N
  end.

(** [str(n)] *)
Definition str (n : N) : string := NilZero.string_of_uint (N.to_uint n).

(** [s.startswith(p)] *)
Fixpoint startswith (p s : string) : bool :=
  match p, s with
  | EmptyString, _ => true
  | String a p', String b s' => Ascii.eqb a b && startswith p' s'
  | String _ _, EmptyString => false
  end.

(** [x in l] and [x not in l] on a list of strings. *)
Definition mem (x : string) (l : list string) : bool :=
  existsb (String.eqb x) l.

End PyStr.

(** ** The fragment of the [re] module the program reaches

    Patterns are [str] patterns without flags. The fragment has literal
    characters, [.], the escapes [\d], [\s], [\n] and escaped punctuation,
    simple character sets without ranges or negation, groups, alternation,
    the greedy quantifiers [*], [+], [?] and the anchor [$]. [compile]
    answers [Unsupported] on anything else, and the functions that call it
    then answer [Unmodelled]. *)

Module Re.

Inductive regex : Type :=
| Eps
| Lit (c : ascii)
| Dot
| Digit
| Space
| Class (cs : list ascii)
| Eol
| Cat (r1 r2 : regex)
| Alt (r1 r2 : regex)
| Star (r : regex).

Inductive compiled : Type :=
| Pattern (r : regex)
| Invalid
| Unsupported.

(** What a quantifier may follow: a plain item yes, an anchor raises
    "nothing to repeat", and a second quantifier (lazy, possessive or
    "multiple repeat") is outside the fragment. *)
Inductive kind : Type := Plain | Quantified | Anchor.

Record frame : Type := Frame {
  alts : list regex;            (* finished alternatives, last first *)
  items : list (regex * kind)   (* the current alternative, last first *)
}.

Definition empty_frame : frame := Frame [] [].

Definition push (r : regex) (k : kind) (f : frame) : frame :=
  Frame (alts f) ((r, k) :: items f).

Definition seq_of (its : list (regex * kind)) : regex :=
  fold_left (fun acc it => Cat (fst it) acc) its Eps.

Definition close (f : frame) : regex :=
  fold_left (fun acc a => Alt a acc) (alts f) (seq_of (items f)).

Definition next_alt (f : frame) : frame :=
  Frame (seq_of (items f) :: alts f) [].

Definition is_punct (c : ascii) : bool :=
  let n := PyStr.code c in
  ((33 <=? n) && (n <=? 47) || (58 <=? n) && (n <=? 64)
   || (91 <=? n) && (n <=? 96) || (123 <=? n) && (n <=? 126))%N.

Definition escape (e : ascii) : option regex :=
  if Ascii.eqb e "d" then Some Digit
  else if Ascii.eqb e "s" then Some Space
  else if Ascii.eqb e "n" then Some (Lit "010")
  else if is_punct e then Some (Lit e)
  else None.

Definition quantify (q : ascii) (r : regex) : regex :=
  if Ascii.eqb q "*" then Star r
  else if Ascii.eqb q "+" then Cat r (Star r)
  else Alt r Eps.

(** One pass over the pattern. [cls] holds the characters of the set being
    read, [cur] the innermost open group and [stack] the groups around it. *)
Fixpoint parse (p : string) (cls : option (list ascii))
    (cur : frame) (stack : list frame) : compiled :=
  match p with
  | EmptyString =>
      match cls, stack with
      | None, [] => Pattern (close cur)
      | _, _ => Invalid
      end
  | String c p' =>
      match cls with
      | Some acc =>
          if Ascii.eqb c "]" then
            match acc with
            | [] => Unsupported
            | _ => parse p' None (push (Class (rev acc)) Plain cur) stack
            end
          else if Ascii.eqb c "\" || Ascii.eqb c "[" || Ascii.eqb c "^" then
            Unsupported
          else if Ascii.eqb c "-" then
            match acc, p' with
            | [], _ => parse p' (Some [c]) cur stack
            | _, String "]" _ => parse p' (Some (c :: acc)) cur stack
            | _, _ => Unsupported
            end
          else parse p' (Some (c :: acc)) cur stack
      | None =>
          if Ascii.eqb c "\" then
            match p' with
            | EmptyString => Invalid
            | String e p'' =>
                match escape e with
                | Some r => parse p'' None (push r Plain cur) stack
                | None => Unsupported
                end
            end
          else if Ascii.eqb c "(" then
            match p' with
            | String "?" (String ":" p'') =>
                parse p'' None empty_frame (cur :: stack)
            | String "?" _ => Unsupported
            | _ => parse p' None empty_frame (cur :: stack)
            end
          else if Ascii.eqb c ")" then
            match stack with
            | [] => Invalid
            | up :: stack' => parse p' None (push (close cur) Plain up) stack'
            end
          else if Ascii.eqb c "|" then parse p' None (next_alt cur) stack
          else if Ascii.eqb c "*" || Ascii.eqb c "+" || Ascii.eqb c "?" then
            match items cur with
            | [] => Invalid
            | (_, Anchor) :: _ => Invalid
            | (_, Quantified) :: _ => Unsupported
            | (r, Plain) :: its =>
                parse p' None (Frame (alts cur) ((quantify c r, Quantified) :: its))
                  stack
            end
          else if Ascii.eqb c "$" then parse p' None (push Eol Anchor cur) stack
          else if Ascii.eqb c "." then parse p' None (push Dot Plain cur) stack
          else if Ascii.eqb c "[" then parse p' (Some []) cur stack
          else if Ascii.eqb c "^" || Ascii.eqb c "{" || Ascii.eqb c "}"
                  || Ascii.eqb c "]" then Unsupported
          else parse p' None (push (Lit c) Plain cur) stack
      end
  end.

(** [re.compile(p)] *)
Definition compile (p : string) : compiled := parse p None empty_frame [].

Definition shorter (s r : string) : bool :=
  (String.length r <? String.length s)%nat.

(** The remainders of [s] after zero or more rounds of [step], more rounds
    first (the quantifier is greedy); a round that consumes nothing is not
    repeated, so [fuel = length s] rounds are all there can be. *)
Fixpoint star_run (step : string -> list string) (fuel : nat) (s : string)
    : list string :=
  match fuel with
  | O => [s]
  | S fuel' =>
      flat_map (star_run step fuel') (List.filter (shorter s) (step s)) ++ [s]
  end.

Definition eqb_in (c : ascii) (cs : list ascii) : bool :=
  existsb (Ascii.eqb c) cs.

Definition one (ok : ascii -> bool) (s : string) : list string :=
  match s with
  | String c s' => if ok c then [s'] else []
  | EmptyString => []
  end.

(** The remainders of [s] after each way [r] matches at its start, in the
    order a backtracking matcher tries them. *)
Fixpoint run (r : regex) (s : string) : list string :=
  match r with
  | Eps => [s]
  | Lit c => one (Ascii.eqb c) s
  | Dot => one (fun c => negb (Ascii.eqb c "010")) s
  | Digit => one PyStr.is_digit s
  | Space => one PyStr.is_space s
  | Class cs => one (fun c => eqb_in c cs) s
  | Eol =>
      match s with
      | EmptyString => [s]
      | String "010" EmptyString => [s]
      | _ => []
      end
  | Cat r1 r2 => flat_map (run r2) (run r1 s)
  | Alt r1 r2 => run r1 s ++ run r2 s
  | Star r' => star_run (run r') (String.length s) s
  end.

Definition nonempty {A : Type} (l : list A) : bool :=
  match l with
  | [] => false
  | _ => true
  end.

Definition with_pattern {A : Type} (p : string) (k : regex -> result A)
    : result A :=
  match compile p with
  | Pattern r => k r
  | Invalid => Raise ReError
  | Unsupported => Unmodelled
  end.

(** [re.match(p, s) is not None] *)
Definition matches (p s : string) : result bool :=
  with_pattern p (fun r => Ok (nonempty (run r s))).

(** [re.fullmatch(p, s) is not None] *)
Definition fullmatch (p s : string) : result bool :=
  with_pattern p (fun r => Ok (existsb (String.eqb EmptyString) (run r s))).

Fixpoint search_from (r : regex) (s : string) : bool :=
  nonempty (run r s)
  || match s with
     | EmptyString => false
     | String _ s' => search_from r s'
     end.

(** [re.search(p, s) is not None] *)
Definition search (p s : string) : result bool :=
  with_pattern p (fun r => Ok (search_from r s)).

(** The matches [re.findall] collects from [s] on, leftmost first, each the
    one the matcher finds first at its position. An empty match is outside
    the fragment. *)
Fixpoint findall_from (fuel : nat) (r : regex) (s : string)
    : result (list string) :=
  match fuel with
  | O => Ok []
  | S fuel' =>
      match run r s with
      | rest :: _ =>
          if shorter s rest then
            l ← findall_from fuel' r rest;
            Ok (String.substring 0 (String.length s - String.length rest) s :: l)
          else Unmodelled
      | [] =>
          match s with
          | EmptyString => Ok []
          | String _ s' => findall_from fuel' r s'
          end
      end
  end.

(** [re.findall(p, s)] for a pattern without groups. *)
Definition findall (p s : string) : result (list string) :=
  with_pattern p (fun r => findall_from (S (String.length s)) r s).

End Re.

(** ** Dictionaries in insertion order *)

Module Dict.
Section Ops.
Context {V : Type}.

(** [d.get(k)] *)
Fixpoint get (k : string) (d : list (string * V)) : option V :=
  match d with
  | [] => None
  | (k', v) :: d' => if String.eqb k k' then Some v else get k d'
  end.

(** [k in d] *)
Definition has (k : string) (d : list (string * V)) : bool :=
  match get k d with
  | Some _ => true
  | None => false
  end.

(** [d[k] = v]: a known key keeps its place, a new one goes last. *)
Fixpoint set (k : string) (v : V) (d : list (string * V))
    : list (string * V) :=
  match d with
  | [] => [(k, v)]
  | (k', v') :: d' =>
      if String.eqb k k' then (k, v) :: d' else (k', v') :: set k v d'
  end.

(** [d.keys()] *)
Definition keys (d : list (string * V)) : list string := map fst d.

(** [d.values()] *)
Definition values (d : list (string * V)) : list V := map snd d.
End Ops.
End Dict.

(** ** seq.py: the registry *)

Module Seqs.
Import PyStr.

(** The four attributes of a [Seqs] object. *)
Record t : Type := Make {
  _seqs : list (string * string);
  _useqs : gset string;
  _structures : gmap string (list string);
  _accessions : list (string * list string)
}.

(** [Seqs()] *)
Definition init : t := Make [] ∅ ∅ [].

Definition accessions (st : t) : list (string * list string) := _accessions st.
Definition dscrptrs (st : t) : list string := Dict.keys (_seqs st).
Definition seqs (st : t) : gset string := _useqs st.
Definition structures (st : t) : gmap string (list string) := _structures st.
Definition get_seq (st : t) (dscrptr : string) : option string :=
  Dict.get dscrptr (_seqs st).
Definition get_structures (st : t) (dscrptr : string) : option (list string) :=
  _structures st !! dscrptr.

(** [get_fasta] *)
Definition get_fasta (st : t) : string :=
  let out :=
    fold_left (fun out e => out +:+ ">" +:+ fst e +:+ "
" +:+ snd e +:+ "
") (_seqs st) EmptyString in
  let fix rstrip_nl (s : string) : string :=
    match s with
    | EmptyString => EmptyString
    | String c s' =>
        match rstrip_nl s' with
        | EmptyString => if Ascii.eqb c "010" then EmptyString else String c EmptyString
        | r => String c r
        end
    end in
  rstrip_nl out.

Definition seq_pattern : string := "[ACDEFGHIKLMNPQRSTWVY-]+\*?".

(** [_validate_seq]; the pattern compiles, so the last branch is dead. *)
Definition _validate_seq (seq : string) : bool :=
  match Re.fullmatch seq_pattern seq with
  | Ok b => b
  | _ => false
  end.

(** One round of the loop of [add_seq] on a descriptor that is taken. *)
Definition bump (dscrptr : string) : string :=
  let d := rsplit1 dscrptr in
  let d' :=
    match d with
    | [h; t] => if isdecimal t then [h; str (int t + 1)] else d ++ ["2"]
    | _ => d ++ ["2"]
    end in
  join "_" d'.

(** The loop "until descriptor is unique", cut off after [fuel] rounds. *)
Fixpoint unique (fuel : nat) (known : list (string * string))
    (dscrptr : string) : option string :=
  if Dict.has dscrptr known then
    match fuel with
    | O => None
    | S fuel' => unique fuel' known (bump dscrptr)
    end
  else Some dscrptr.

(** [add_seq]: the integer returned and the registry afterwards. The loop
    is given as many rounds as the registry has entries, which
    [add_seq_total] shows to be enough. *)
Definition add_seq (st : t) (dscrptr seq : string) : option (Z * t) :=
  let seq := upper (strip seq) in
  let dscrptr := strip dscrptr in
  if bool_decide (seq ∉ seqs st) then
    if _validate_seq seq then
      let dscrptr :=
        if String.eqb dscrptr "" then
          "seq_" +:+ str (N.of_nat (length (_seqs st)) + 1)
        else dscrptr in
      match unique (length (_seqs st)) (_seqs st) dscrptr with
      | Some dscrptr =>
          Some (0, Make (Dict.set dscrptr seq (_seqs st))
                        ({[seq]} ∪ _useqs st)
                        (_structures st) (_accessions st))
      | None => None
      end
    else Some (1, st)
  else Some (2, st).

Definition verify_pattern (d : string) : string :=
  match rsplit1 d with
  | [h; t] => if isdecimal t then h +:+ "(?:_\d+)?$" else d +:+ "(?:_\d+)?$"
  | _ => d +:+ "(?:_\d+)?$"
  end.

(** The [for] loop of [_verify_dscrptr] over the descriptors [ks]. *)
Fixpoint first_match (st : t) (pattern s : string) (ks : list string)
    : result string :=
  match ks with
  | [] => Ok EmptyString
  | dscrptr :: ks' =>
      m ← Re.matches pattern dscrptr;
      if m && bool_decide (get_seq st dscrptr = Some s) then Ok dscrptr
      else first_match st pattern s ks'
  end.

(** [_verify_dscrptr] *)
Definition _verify_dscrptr (st : t) (d s : string) : result string :=
  let d := strip d in
  let s := upper (strip s) in
  first_match st (verify_pattern d) s (dscrptrs st).

(** [add_accessions(dscrptr, accessions, seq, verify=verify)] *)
Definition add_accessions (st : t) (dscrptr : string)
    (accessions : list string) (seq : string) (verify : bool)
    : result (bool * t) :=
  dscrptr ← (if verify then _verify_dscrptr st dscrptr seq else Ok dscrptr);
  if verify && String.eqb dscrptr "" then Ok (false, st)
  else if (0 <? length accessions)%nat then
    Ok (true, Make (_seqs st) (_useqs st) (_structures st)
                   (Dict.set dscrptr accessions (_accessions st)))
  else Ok (true, st).

Definition valid : list string := ["pdb"; "EBI-AF"].

(** [add_structures(dscrptr, structures, seq, verify=verify)] *)
Definition add_structures (st : t) (dscrptr : string)
    (structures : list string) (seq : string) (verify : bool)
    : result (bool * t) :=
  dscrptr ← (if verify then _verify_dscrptr st dscrptr seq else Ok dscrptr);
  if verify && String.eqb dscrptr "" then Ok (false, st)
  else
    match structures with
    | tag :: _ =>
        if negb (mem tag valid) then Raise ValueError
        else if (1 <? length structures)%nat then
          Ok (true, Make (_seqs st) (_useqs st)
                         (<[dscrptr := structures]> (_structures st))
                         (_accessions st))
        else Ok (true, st)
    | [] => Raise ValueError
    end.

End Seqs.

(** ** bl.py: hit matching and the polling loops *)

Module Bl.
Import PyStr.

(** Minimum identity, cover and maximum number of gaps of a match. [COV]
    is the float [0.9] of the source, taken as the rational nine tenths:
    the binary64 product [q_len * COV] lies within half a unit in the last
    place of the exact one, which is an integer (then the product is that
    integer) or at least a tenth away from every integer, so its
    comparison with the integer [align_len] is the exact one for every
    length below [2^49]. *)
Definition IDENT : Z := 1.
Definition COV : Q := 9 # 10.
Definition GAPS : nat := 1.

(** The fields of an alignment record, a description record and a hit
    that the program reads. *)
Record hsp : Type := Hsp {
  identity : Z;
  gaps : Z;
  align_len : Z;
  hseq : string;
  qseq : string
}.

Record descr : Type := Descr {
  id : string;
  accession : string
}.

Record hit : Type := Hit {
  hsps : list hsp;
  description : list descr
}.

(** [len(re.findall(r"-+", s))]; the pattern compiles and never matches
    the empty string ([findall_gaps]), so the last branch is dead. *)
Definition gap_runs (s : string) : nat :=
  match Re.findall "-+" s with
  | Ok l => length l
  | _ => O
  end.

(** [_checkhit], with the hit and the query length it closes over. *)
Definition _checkhit (h : hit) (q_len : Z) : result bool :=
  match hsps h with
  | [] => Raise IndexError
  | hsp :: _ =>
      if (align_len hsp * IDENT <=? identity hsp + gaps hsp)
         && negb (Qle_bool (inject_Z (align_len hsp)) (inject_Z q_len * COV))
      then
        if (gaps hsp =? 0)
           || (gap_runs (hseq hsp) <=? GAPS)%nat
              && (gap_runs (qseq hsp) <=? GAPS)%nat
        then Ok true
        else Ok false
      else Ok false
  end.

(** The loop of [_acc_pdb_from_hit] over the description records. *)
Fixpoint acc_pdb_loop (ds : list descr) (flag : bool)
    (pdbs accessions : list string) : list string * list string :=
  match ds with
  | [] => (pdbs, accessions)
  | d :: ds' =>
      if startswith "pdb|" (id d) then
        let base := hd EmptyString (split1 (accession d)) in
        if negb (mem base pdbs) then acc_pdb_loop ds' flag (pdbs ++ [base]) accessions
        else acc_pdb_loop ds' flag pdbs accessions
      else if flag then
        if negb (mem (accession d) accessions) then
          acc_pdb_loop ds' false pdbs (accessions ++ [accession d])
        else acc_pdb_loop ds' flag pdbs accessions
      else acc_pdb_loop ds' flag pdbs accessions
  end.

(** [_acc_pdb_from_hit], with the hit and the two lists it appends to. *)
Definition _acc_pdb_from_hit (h : hit) (pdbs accessions : list string)
    : list string * list string :=
  acc_pdb_loop (description h) true pdbs accessions.

(** The loop of [process] over the hits of one query. *)
Fixpoint hits_loop (hits : list hit) (q_len : Z)
    (pdbs accessions : list string) : result (list string * list string) :=
  match hits with
  | [] => Ok (pdbs, accessions)
  | h :: hits' =>
      ok ← _checkhit h q_len;
      if (ok : bool) then
        let pa := _acc_pdb_from_hit h pdbs accessions in
        hits_loop hits' q_len (fst pa) (snd pa)
      else hits_loop hits' q_len pdbs accessions
  end.

Definition found (p s : string) : bool :=
  match Re.search p s with
  | Ok b => b
  | _ => false
  end.

(** [_outcome] *)
Definition _outcome (s : string) : Z :=
  if found "\s+Status=WAITING\n" s then 1
  else if found "\s+Status=FAILED\n" s then 2
  else if found "\s+Status=UNKNOWN\n" s then 3
  else if found "\s+Status=READY\n" s then 4
  else -1.

(** How one round of a polling loop ends: around again with the delay the
    next round sees, out of the loop, or out of the program. *)
Inductive round : Type :=
| Again (delay : Z)
| Break
| SysExit (msg : string).

(** One round of the [while] loop of [run], after its [time.sleep(delay)],
    on the text of the response. *)
Definition run_round (rid : string) (delay : Z) (text : string) : round :=
  match _outcome text with
  | 1 => Again (delay + 10)
  | 2 => SysExit ("BLAST (ID: '" +:+ rid +:+ "') failed")
  | 3 => SysExit ("BLAST (ID: '" +:+ rid +:+ "') expired")
  | 4 => Break
  | _ => SysExit "Unknown error retrieving BLAST output"
  end.

(** The [while] loop of [run] on the responses the server gives one after
    the other: the delays slept, and how the loop ended ([None] when the
    program is still waiting after the last response given). *)
Fixpoint run_loop (rid : string) (delay : Z) (texts : list string)
    : list Z * option round :=
  match texts with
  | [] => ([], None)
  | text :: texts' =>
      match run_round rid delay text with
      | Again delay' =>
          let r := run_loop rid delay' texts' in (delay :: fst r, snd r)
      | e => ([delay], Some e)
      end
  end.

(** One round of the [while] loop of [_convert_to_uniprot] on the
    [jobStatus] of the response. *)
Definition status_round (delay : Z) (jobStatus : option string) : round :=
  match jobStatus with
  | Some s =>
      if mem s ["NEW"; "RUNNING"] then Again delay
      else SysExit "Unexpected error from UniProt."
  | None => Break
  end.

(** The [while] loop for one job: the delays slept and how it ended. *)
Fixpoint status_loop (delay : Z) (statuses : list (option string))
    : list Z * option round :=
  match statuses with
  | [] => ([], None)
  | st :: statuses' =>
      match status_round delay st with
      | Again delay' =>
          let r := status_loop delay' statuses' in (delay :: fst r, snd r)
      | e => ([], Some e)
      end
  end.

(** The [for] loop over the jobs, each with the statuses it reports. *)
Fixpoint jobs_loop (delay : Z) (jobs : list (list (option string)))
    : list Z * option round :=
  match jobs with
  | [] => ([], Some Break)
  | statuses :: jobs' =>
      match status_loop delay statuses with
      | (slept, Some Break) =>
          let r := jobs_loop delay jobs' in (slept ++ fst r, snd r)
      | r => r
      end
  end.

(** The delays [run] and [_convert_to_uniprot] start from. *)
Definition run_delay : Z := 10.
Definition status_delay : Z := 15.


(** The part of a report under [report -> results -> search] that the
    program reads. A key that is missing is [None]; the sequence, which
    [run] copies from the registry, may also be the JSON [null] ([Some
    None]). The hits have their keys. *)
Record report : Type := Report {
  query_title : option string;
  query_seq : option (option string);
  query_len : option Z;
  hits : option (list hit)
}.

Definition E1 : string :=
  "Provided BLAST.json file has unexpected structure. "
  +:+ "Verify provided file was produced by this program, and hasn't been tampered with.".

Definition E2 (dscrptr seq : string) : string :=
  "Sequence
'" +:+ dscrptr +:+ "':
'" +:+ seq +:+ "'
could not be added from provided BLAST result.
Verify provided BLAST.json was produced by this program, and hasn't been tampered with.
".

(** The loop of [extractseq] over the reports, on the registry built so
    far. [None] stands for a call of [add_seq] that does not return, which
    [add_seq_total] excludes. A [null] sequence makes [add_seq] raise an
    [AttributeError], for which the embedding has no constructor. *)
Fixpoint extract_loop (reports : list report) (seqs : Seqs.t)
    : option (result Seqs.t) :=
  match reports with
  | [] => Some (Ok seqs)
  | r :: reports' =>
      match query_title r, query_seq r with
      | Some dscrptr, Some (Some seq) =>
          match Seqs.add_seq seqs dscrptr seq with
          | Some (0, seqs') => extract_loop reports' seqs'
          | Some (_, _) => Some (Exit (E2 dscrptr seq))
          | None => None
          end
      | Some _, Some None => Some Unmodelled
      | _, _ => Some (Exit E1)
      end
  end.

(** [extractseq] *)
Definition extractseq (reports : list report) : option (result Seqs.t) :=
  extract_loop reports Seqs.init.

(** The loop of [process] over the reports, with the count [c] of the
    reports skipped so far. [convert] is [_convert_to_uniprot]. *)
Fixpoint process_loop (convert : list string -> result (list string))
    (reports : list report) (seqs : Seqs.t) (c : Z) : result (Z * Seqs.t) :=
  match reports with
  | [] => Ok (c, seqs)
  | r :: reports' =>
      match query_title r, query_seq r with
      | Some d, Some s =>
          if negb (match s with
                   | Some s => bool_decide (s ∈ Seqs.seqs seqs)
                   | None => false
                   end)
          then process_loop convert reports' seqs (c + 1)
          else
            match query_len r, hits r with
            | Some q_len, Some hs =>
                pa ← hits_loop hs q_len ["pdb"] [];
                accessions ← (if (0 <? length (snd pa))%nat then convert (snd pa)
                              else Ok (snd pa));
                r1 ← Seqs.add_accessions seqs d accessions (default EmptyString s) true;
                if negb (fst r1) then process_loop convert reports' (snd r1) (c + 1)
                else
                  r2 ← Seqs.add_structures (snd r1) d (fst pa) (default EmptyString s) true;
                  process_loop convert reports' (snd r2) c
            | _, _ => Exit E1
            end
      | _, _ => Exit E1
      end
  end.

(** [process] *)
Definition process (convert : list string -> result (list string))
    (reports : list report) (seqs : Seqs.t) : result (Z * Seqs.t) :=
  process_loop convert reports seqs 0.

(** The last loop of [_convert_to_uniprot], over the results of the jobs:
    each entry gives its primary accession, or [None] when it has none. *)
Definition collect_entry (accessions : list string) (entry : option string)
    : list string :=
  match entry with
  | Some a => if negb (mem a accessions) then accessions ++ [a] else accessions
  | None => accessions
  end.

Definition collect (results : list (list (option string))) : list string :=
  fold_left (fun accessions result => fold_left collect_entry result accessions)
    results [].


(** The loop at the end of [run] that copies into each report the sequence
    the registry holds for its title, [null] when it holds none. *)
Fixpoint annotate (seqs : Seqs.t) (reports : list report)
    : result (list report) :=
  match reports with
  | [] => Ok []
  | r :: reports' =>
      match query_title r with
      | Some dscrptr =>
          reports'' ← annotate seqs reports';
          Ok (Report (Some dscrptr) (Some (Seqs.get_seq seqs dscrptr))
                     (query_len r) (hits r) :: reports'')
      | None => Exit "Server BLAST JSON output has unexpected structure."
      end
  end.

End Bl.

(** ** pd.py: structures by accession *)

Module Pd.
Import PyStr.

(** What the search answers for one accession. *)
Inductive response : Type :=
| HttpError
| NoContent
| NotJson
| NoKey
| ResultSet (identifiers : list string).

(** The [for] loop over the identifiers of one result set. *)
Definition add_unique (pdbs : list string) (identifier : string) : list string :=
  let base := hd EmptyString (split1 identifier) in
  if negb (mem base pdbs) then pdbs ++ [base] else pdbs.

(** The loop over the accessions of one descriptor: the list of
    structures and the accessions queried so far, last first. *)
Fixpoint accession_loop (search : string -> response) (accessions : list string)
    (pdbs asked : list string) : result (list string * list string) :=
  match accessions with
  | [] => Ok (pdbs, asked)
  | accession :: accessions' =>
      match search accession with
      | HttpError => Exit "HTTP-error while querying RSCB PDB Search API."
      | NoContent => Ok (pdbs, accession :: asked)
      | NotJson => Exit "Unexpected response format RSCB PDB Search API."
      | NoKey => Exit "Unexpected JSON structure in RSCB PDB Search response."
      | ResultSet identifiers =>
          accession_loop search accessions'
            (fold_left add_unique identifiers pdbs) (accession :: asked)
      end
  end.

(** The structures a descriptor starts the search with. *)
Definition known (st : Seqs.t) (dscrptr : string) : list string :=
  match Seqs.get_structures st dscrptr with
  | Some (tag :: rest) => if String.eqb tag "pdb" then tag :: rest else ["pdb"]
  | _ => ["pdb"]
  end.

(** The loop over the descriptors with accessions. *)
Fixpoint descriptor_loop (search : string -> response)
    (items : list (string * list string)) (st : Seqs.t) (asked : list string)
    : result (Seqs.t * list string) :=
  match items with
  | [] => Ok (st, asked)
  | (dscrptr, accessions) :: items' =>
      r ← accession_loop search accessions (known st dscrptr) asked;
      r' ← Seqs.add_structures st dscrptr (fst r) EmptyString false;
      descriptor_loop search items' (snd r') (snd r)
  end.

(** [uniprot_to_pdb]: the registry afterwards and the accessions queried,
    in the order of the queries. *)
Definition uniprot_to_pdb (search : string -> response) (st : Seqs.t)
    : result (Seqs.t * list string) :=
  r ← descriptor_loop search (Seqs.accessions st) st [];
  Ok (fst r, rev (snd r)).

End Pd.

(** ** af.py: predicted models by accession *)

Module Af.

(** What the model service answers for one accession. *)
Inductive response : Type :=
| HttpError
| NotFound
| NotJson
| Model (cifUrl : string).

(** The loop over the accessions of one descriptor. *)
Fixpoint accession_loop (fetch : string -> response) (accessions : list string)
    (structures asked : list string) : result (list string * list string) :=
  match accessions with
  | [] => Ok (structures, asked)
  | accession :: accessions' =>
      match fetch accession with
      | NotFound => Ok (structures, accession :: asked)
      | HttpError => Exit "HTTP-error while querying EBI AlphaFold PSB API."
      | NotJson => Exit "Unexpected response format from EBI AlphaFold PSB API."
      | Model cifUrl =>
          accession_loop fetch accessions' (structures ++ [cifUrl])
            (accession :: asked)
      end
  end.

(** The truth value of [seqs.get_structures(dscrptr)]. *)
Definition has_structures (st : Seqs.t) (dscrptr : string) : bool :=
  match Seqs.get_structures st dscrptr with
  | Some (_ :: _) => true
  | _ => false
  end.

(** The loop over the descriptors with accessions. *)
Fixpoint descriptor_loop (fetch : string -> response)
    (items : list (string * list string)) (st : Seqs.t) (asked : list string)
    : result (Seqs.t * list string) :=
  match items with
  | [] => Ok (st, asked)
  | (dscrptr, accessions) :: items' =>
      if has_structures st dscrptr then descriptor_loop fetch items' st asked
      else
        r ← accession_loop fetch accessions ["EBI-AF"] asked;
        r' ← Seqs.add_structures st dscrptr (fst r) EmptyString false;
        descriptor_loop fetch items' (snd r') (snd r)
  end.

(** [from_uniprot]: the registry afterwards and the accessions queried,
    in the order of the queries. *)
Definition from_uniprot (fetch : string -> response) (st : Seqs.t)
    : result (Seqs.t * list string) :=
  r ← descriptor_loop fetch (Seqs.accessions st) st [];
  Ok (fst r, rev (snd r)).

End Af.

(** ** fp.py: reading a FASTA file *)

Module Fp.
Import PyStr.

(** [s.removeprefix(">")] *)
Definition removeprefix (s : string) : string :=
  match s with
  | String c s' => if Ascii.eqb c ">" then s' else s
  | EmptyString => s
  end.

(** [_cont], on the line the user types at the prompt: [re.match] with the
    pattern [n], ignoring case, succeeds on a line that starts with [n] or
    [N]. *)
Definition _cont (answer : string) : result unit :=
  match answer with
  | String c _ =>
      if Ascii.eqb c "n" || Ascii.eqb c "N"
      then Exit "User request: exit programm"
      else Ok tt
  | EmptyString => Ok tt
  end.

Definition unknown (dscrptr seq : string) : string :=
  "Unkown error trying to add '" +:+ dscrptr +:+ "': '" +:+ seq +:+ "'".

(** The loop of [process_fasta] over the rows of the file, with the
    registry, the sequence stitched so far, the descriptor and the count of
    invalid sequences. The row is the last one when no row follows. [None]
    stands for a call of [add_seq] that does not return. *)
Fixpoint rows_loop (rows : list string) (seqs : Seqs.t) (seq dscrptr : string)
    (invalid : Z) : option (result (Seqs.t * Z)) :=
  match rows with
  | [] => Some (Ok (seqs, invalid))
  | row :: rows' =>
      let header := startswith ">" (strip row) in
      let seq := if header then seq else seq +:+ strip row in
      let dscrptr' :=
        if header then strip (removeprefix (strip row)) else dscrptr in
      if negb header && negb (match rows' with [] => true | _ => false end)
      then rows_loop rows' seqs seq dscrptr invalid
      else if String.eqb seq "" then rows_loop rows' seqs seq dscrptr' invalid
      else
        match Seqs.add_seq seqs dscrptr seq with
        | Some (0, seqs') => rows_loop rows' seqs' "" dscrptr' invalid
        | Some (1, seqs') => rows_loop rows' seqs' "" dscrptr' (invalid + 1)
        | Some (2, seqs') => rows_loop rows' seqs' "" dscrptr' invalid
        | Some (_, _) => Some (Exit (unknown dscrptr seq))
        | None => None
        end
  end.

(** [process_fasta], on the rows [readlines] gives ([None] when the file
    cannot be opened) and the line the user types if asked. *)
Definition process_fasta (file : string) (sequences : option (list string))
    (answer : string) : option (result Seqs.t) :=
  match sequences with
  | None => Some (Exit ("'" +:+ file +:+ "' could not be opened. "))
  | Some rows =>
      match rows_loop rows Seqs.init "" "" 0 with
      | Some (Ok (seqs, invalid)) =>
          if 0 <? invalid then Some (_ ← _cont answer; Ok seqs)
          else Some (Ok seqs)
      | Some (Raise e) => Some (Raise e)
      | Some (Exit msg) => Some (Exit msg)
      | Some Unmodelled => Some Unmodelled
      | None => None
      end
  end.


(** The default output path. *)
Definition PATH : string := "./out".

(** One round of the loop of [new_output_folder] on a path that exists. *)
Definition next_path (PATH : string) : string :=
  let p := rsplit1 PATH in
  let p' :=
    match p with
    | [h; t] => if isdecimal t then [h; str (int t + 1)] else p ++ ["2"]
    | _ => p ++ ["2"]
    end in
  join "_" p'.

(** [new_output_folder] on the set of the paths that exist, cut off after
    [fuel] rounds: the folder it makes, which is [PATH] afterwards. *)
Fixpoint new_output_folder (fuel : nat) (existing : gset string)
    (PATH : string) : option string :=
  if bool_decide (PATH ∈ existing) then
    match fuel with
    | O => None
    | S fuel' => new_output_folder fuel' existing (next_path PATH)
    end
  else Some PATH.

End Fp.

(** ** PySeqSt.py: a single sequence, and the passes in their order *)

Module Main.

Definition E1 : string :=
  "Please provide a valid sequence, in the form of single-letter canonical (20) amino acids.
To include '>...' statements, provide fasta file with -f".

(** [process_input] *)
Definition process_input (seq : string) : option (result Seqs.t) :=
  match Seqs.add_seq Seqs.init "" seq with
  | Some (0, seqs) => Some (Ok seqs)
  | Some (_, _) => Some (Exit E1)
  | None => None
  end.

(** The three passes of [main] over the registry, in their order:
    [bl.process], [pd.uniprot_to_pdb], [af.from_uniprot]. The result is the
    count [process] returns and the registry [fp.save_structures] is given. *)
Definition passes (convert : list string -> result (list string))
    (search : string -> Pd.response) (fetch : string -> Af.response)
    (reports : list Bl.report) (seqs : Seqs.t) : result (Z * Seqs.t) :=
  r1 ← Bl.process convert reports seqs;
  r2 ← Pd.uniprot_to_pdb search (snd r1);
  r3 ← Af.from_uniprot fetch (fst r2);
  Ok (fst r1, fst r3).

End Main.

(** ** Notions the statements use *)

Module Spec.





(** The normal form under which the registry keeps and compares a
    sequence: [seq.strip().upper()]. *)
Definition normalize (seq : string) : string := PyStr.upper (PyStr.strip seq).

(** [k] rounds of the loop of [add_seq]. *)
Fixpoint iter_bump (k : nat) (d : string) : string :=
  match k with
  | O => d
  | S k' => iter_bump k' (Seqs.bump d)
  end.

(** The descriptor [add_seq] tries first. *)
Definition first_dscrptr (st : Seqs.t) (dscrptr : string) : string :=
  if String.eqb (PyStr.strip dscrptr) ""
  then "seq_" +:+ PyStr.str (N.of_nat (length (Seqs._seqs st)) + 1)
  else PyStr.strip dscrptr.

(** Whether [d] ends in an underscore and decimal digits. *)
Definition has_suffix (d : string) : bool :=
  match PyStr.rcut d with
  | Some (_, t) => PyStr.isdecimal t
  | None => false
  end.

(** [d_k] *)
Definition suffixed (d : string) (k : nat) : string :=
  d +:+ "_" +:+ PyStr.str (N.of_nat k).



(** The registries the operations of [Seqs] build from a new one. A call
    that raises leaves the registry as it was. *)
Inductive reachable : Seqs.t -> Prop :=
| reach_init : reachable Seqs.init
| reach_add_seq st dscrptr seq c st' :
    reachable st ->
    Seqs.add_seq st dscrptr seq = Some (c, st') ->
    reachable st'
| reach_add_accessions st dscrptr accessions seq verify b st' :
    reachable st ->
    Seqs.add_accessions st dscrptr accessions seq verify = Ok (b, st') ->
    reachable st'
| reach_add_structures st dscrptr structures seq verify b st' :
    reachable st ->
    Seqs.add_structures st dscrptr structures seq verify = Ok (b, st') ->
    reachable st'.



(** The text before the number of the descriptors that follow [d] in the
    loop of [add_seq], and the number of the first of them, less one. *)
Definition stem (d : string) : string * N :=
  match PyStr.rcut d with
  | Some (h, t) => if PyStr.isdecimal t then (h, PyStr.int t) else (d, 1%N)
  | None => (d, 1%N)
  end.


(** What every registry built by the operations satisfies: descriptors
    are not repeated, sequences are not repeated, the set of sequences is
    the set of the sequences of the entries, and these are valid. *)
Record wf (st : Seqs.t) : Prop := Wf {
  wf_keys : NoDup (Seqs.dscrptrs st);
  wf_values : NoDup (Dict.values (Seqs._seqs st));
  wf_useqs : forall s, s ∈ Seqs.seqs st <-> s ∈ Dict.values (Seqs._seqs st);
  wf_valid : forall s, s ∈ Dict.values (Seqs._seqs st) -> Seqs._validate_seq s = true
}.


(** The descriptor under which a verified or unverified call stores: the
    one [_verify_dscrptr] resolves, which must not be empty, or the one
    given. *)
Definition resolves (st : Seqs.t) (dscrptr seq : string) (verify : bool)
    (d : string) : Prop :=
  if verify then Seqs._verify_dscrptr st dscrptr seq = Ok d /\ d <> EmptyString
  else d = dscrptr.

(** The registry with the list of structures of [d] replaced. *)
Definition with_structures (st : Seqs.t) (d : string) (l : list string)
    : Seqs.t :=
  Seqs.Make (Seqs._seqs st) (Seqs._useqs st)
            (<[d := l]> (Seqs._structures st)) (Seqs._accessions st).

(** The registry with the list of accessions of [d] replaced. *)
Definition with_accessions (st : Seqs.t) (d : string) (l : list string)
    : Seqs.t :=
  Seqs.Make (Seqs._seqs st) (Seqs._useqs st) (Seqs._structures st)
            (Dict.set d l (Seqs._accessions st)).


(** The delays [delay], [delay + 10], [delay + 20], ... of [n] rounds. *)
Definition ramp (delay : Z) (n : nat) : list Z :=
  map (fun i => delay + 10 * Z.of_nat i) (seq 0 n).

(** Whether a description record is tagged as a structure-database record. *)
Definition is_pdb (d : Bl.descr) : bool := PyStr.startswith "pdb|" (Bl.id d).

(** The identifier before the first underscore. *)
Definition base (identifier : string) : string :=
  hd EmptyString (PyStr.split1 identifier).

(** [l] with [x] appended unless it is there. *)
Definition add_new (l : list string) (x : string) : list string :=
  if PyStr.mem x l then l else l ++ [x].

(** The base identifiers of the structure-database records, in order. *)
Definition pdb_bases (ds : list Bl.descr) : list string :=
  map (fun d => base (Bl.accession d)) (List.filter is_pdb ds).

(** The first record that is not a structure-database record. *)
Definition first_other (ds : list Bl.descr) : option Bl.descr :=
  List.find (fun d => negb (is_pdb d)) ds.

(** The first record that is not a structure-database record and whose
    accession is not among [accessions]. *)
Definition first_new (accessions : list string) (ds : list Bl.descr)
    : option Bl.descr :=
  List.find (fun d => negb (is_pdb d) && negb (PyStr.mem (Bl.accession d) accessions)) ds.







(** The accessions of the entries, one descriptor after the other. *)
Definition all_accessions (items : list (string * list string)) : list string :=
  concat (map snd items).





(** Whether [s] does not start, or does not end, with a space character. *)
Definition first_ok (s : string) : bool :=
  match s with
  | EmptyString => true
  | String c _ => negb (PyStr.is_space c)
  end.

Fixpoint last_ok (s : string) : bool :=
  match s with
  | EmptyString => true
  | String c EmptyString => negb (PyStr.is_space c)
  | String _ s' => last_ok s'
  end.

(** A descriptor as the registry keeps them: not empty and with no space
    character at either end. *)
Definition tidy (d : string) : Prop :=
  d <> EmptyString /\ first_ok d = true /\ last_ok d = true.




(** Whether [process] skips a report of a registry at the membership test:
    the report has its title, and its sequence is missing ([null]) or is not,
    as it stands, one of the stored sequences. *)
Definition skipped (st : Seqs.t) (r : Bl.report) : Prop :=
  exists d s,
    Bl.query_title r = Some d /\ Bl.query_seq r = Some s
    /\ forall s', s = Some s' -> s' ∉ Seqs.seqs st.


(** What a pass of [process] may do to a registry: it keeps the entries, and
    stores lists of accessions that [convert] returned, and lists of
    structures tagged [pdb], under descriptors the registry has. *)
Record grown (convert : list string -> result (list string))
    (st st' : Seqs.t) : Prop := Grown {
  grown_seqs : Seqs._seqs st' = Seqs._seqs st;
  grown_useqs : Seqs._useqs st' = Seqs._useqs st;
  grown_accessions :
    forall d l,
      Dict.get d (Seqs.accessions st') = Some l ->
      Dict.get d (Seqs.accessions st) = Some l
      \/ (d ∈ Seqs.dscrptrs st /\ l <> []
          /\ exists a, a <> [] /\ convert a = Ok l);
  grown_structures :
    forall d l,
      Seqs.get_structures st' d = Some l ->
      Seqs.get_structures st d = Some l
      \/ (d ∈ Seqs.dscrptrs st /\ NoDup l
          /\ exists rest, l = "pdb" :: rest /\ rest <> [])
}.


(** The answers of the structure search on which the program ends, with
    the message it ends with. *)
Definition pd_failure (r : Pd.response) : option string :=
  match r with
  | Pd.HttpError => Some "HTTP-error while querying RSCB PDB Search API."
  | Pd.NotJson => Some "Unexpected response format RSCB PDB Search API."
  | Pd.NoKey => Some "Unexpected JSON structure in RSCB PDB Search response."
  | Pd.NoContent | Pd.ResultSet _ => None
  end.

(** The answers of the model service on which the program ends. *)
Definition af_failure (r : Af.response) : option string :=
  match r with
  | Af.HttpError => Some "HTTP-error while querying EBI AlphaFold PSB API."
  | Af.NotJson => Some "Unexpected response format from EBI AlphaFold PSB API."
  | Af.NotFound | Af.Model _ => None
  end.

(** What a pass over the accessions may do to a registry: it keeps entries
    and accessions, and stores lists tagged [tag], with at least one element
    after the tag, under descriptors that satisfy [at]. *)
Record restructured (tag : string) (at_ : string -> Prop)
    (st st' : Seqs.t) : Prop := Restructured {
  rs_seqs : Seqs._seqs st' = Seqs._seqs st;
  rs_useqs : Seqs._useqs st' = Seqs._useqs st;
  rs_accessions : Seqs._accessions st' = Seqs._accessions st;
  rs_reachable : reachable st -> reachable st';
  rs_structures :
    forall d l,
      Seqs.get_structures st' d = Some l ->
      Seqs.get_structures st d = Some l
      \/ (at_ d /\ exists rest, l = tag :: rest /\ rest <> [])
}.


(** The symbols of the alphabet pattern: the twenty amino acids and the gap
    symbol. *)
Definition alphabet : list ascii :=
  list_ascii_of_string "ACDEFGHIKLMNPQRSTWVY-".

Definition amino (c : ascii) : bool := Re.eqb_in c alphabet.

(** Symbols of the alphabet, then nothing or one asterisk. *)
Fixpoint body_star (s : string) : bool :=
  match s with
  | EmptyString => true
  | String c s' =>
      if amino c then body_star s'
      else Ascii.eqb c "*" && String.eqb s' EmptyString
  end.

(** One symbol of the alphabet or more, then nothing or one asterisk. *)
Definition valid_shape (s : string) : bool :=
  match s with
  | EmptyString => false
  | String c s' => amino c && body_star s'
  end.

(** What [re.compile] makes of the alphabet pattern ([compile_seq]). *)
Definition star_opt : Re.regex := Re.Cat (Re.Alt (Re.Lit "*") Re.Eps) Re.Eps.
Definition seq_regex : Re.regex :=
  Re.Cat (Re.Cat (Re.Class alphabet) (Re.Star (Re.Class alphabet))) star_opt.


(** A character that is no space character and is its own upper case, and
    a string of such characters. *)
Definition stable (c : ascii) : bool :=
  negb (PyStr.is_space c)
  && String.eqb (PyStr.upper_char c) (String c EmptyString).

Fixpoint all_stable (s : string) : bool :=
  match s with
  | EmptyString => true
  | String c s' => stable c && all_stable s'
  end.


(** The characters that have a meaning of their own in a pattern, and the
    strings without any of them. *)
Definition specials : list ascii := list_ascii_of_string "\()|*+?$.[^{}]".

Definition special (c : ascii) : bool := Re.eqb_in c specials.

Fixpoint plain (d : string) : bool :=
  match d with
  | EmptyString => true
  | String c d' => negb (special c) && plain d'
  end.

(** The pattern that matches the characters of [d], one after the other,
    and then [r]. *)
Fixpoint lits (d : string) (r : Re.regex) : Re.regex :=
  match d with
  | EmptyString => r
  | String c d' => Re.Cat (Re.Lit c) (lits d' r)
  end.

(** What [re.compile] makes of the end [(?:_\d+)?$] of the pattern of
    [_verify_dscrptr]. *)
Definition number_regex : Re.regex :=
  Re.Cat (Re.Lit "_") (Re.Cat (Re.Cat Re.Digit (Re.Star Re.Digit)) Re.Eps).

Definition suffix_regex : Re.regex :=
  Re.Cat (Re.Alt number_regex Re.Eps) (Re.Cat Re.Eol Re.Eps).

(** [s] without [p] at its start, if it starts with [p]. *)
Fixpoint after_prefix (p s : string) : option string :=
  match p, s with
  | EmptyString, _ => Some s
  | String a p', String b s' =>
      if Ascii.eqb a b then after_prefix p' s' else None
  | String _ _, EmptyString => None
  end.

(** Decimal digits, at least one unless [seen], up to the end of the string
    or to a line feed that ends it. *)
Fixpoint digits_eol (seen : bool) (s : string) : bool :=
  match s with
  | EmptyString => seen
  | String c s' =>
      if PyStr.is_digit c then digits_eol true s'
      else seen && Ascii.eqb c "010" && String.eqb s' EmptyString
  end.

(** What the end of the pattern accepts after the candidate. *)
Definition suffix_ok (rest : string) : bool :=
  match rest with
  | EmptyString => true
  | String c r' =>
      Ascii.eqb c "_" && digits_eol false r'
      || Ascii.eqb c "010" && String.eqb r' EmptyString
  end.

Definition in_family (b k : string) : bool :=
  match after_prefix b k with
  | Some rest => suffix_ok rest
  | None => false
  end.

(** [k] is [b], or [b] followed by an underscore and a decimal number. *)
Definition family (b k : string) : Prop :=
  k = b \/ exists t, PyStr.isdecimal t = true /\ k = b +:+ "_" +:+ t.


(** The line feed. *)
Definition nl : string := String "010" EmptyString.

(** The two rows of an entry in a FASTA file, and the rows of a list of
    entries. *)
Definition fasta_rows (l : list (string * string)) : list string :=
  flat_map (fun e => [">" +:+ fst e; snd e]) l.

(** The text [get_fasta] builds before it trims it. *)
Definition block (e : string * string) : string :=
  ">" +:+ fst e +:+ nl +:+ snd e +:+ nl.

Fixpoint text (l : list (string * string)) : string :=
  match l with
  | [] => EmptyString
  | e :: l' => block e +:+ text l'
  end.

(** [s.rstrip("\n")] *)
Fixpoint rstrip_nl (s : string) : string :=
  match s with
  | EmptyString => EmptyString
  | String c s' =>
      match rstrip_nl s' with
      | EmptyString => if Ascii.eqb c "010" then EmptyString else String c EmptyString
      | r => String c r
      end
  end.

(** Whether [s] ends with a line feed. *)
Fixpoint ends_nl (s : string) : bool :=
  match s with
  | EmptyString => false
  | String c EmptyString => Ascii.eqb c "010"
  | String _ s' => ends_nl s'
  end.


(** Whether a row of a FASTA file is a header. *)
Definition is_header (row : string) : bool :=
  PyStr.startswith ">" (PyStr.strip row).

(** The rows of a sequence as [process_fasta] stitches them together,
    onto what it has already. *)
Definition stitched (seq : string) (body : list string) : string :=
  fold_left (fun seq row => seq +:+ PyStr.strip row) body seq.

(** The registry with one more entry. *)
Definition added (st : Seqs.t) (d s : string) : Seqs.t :=
  Seqs.Make (Seqs._seqs st ++ [(d, s)]) ({[s]} ∪ Seqs._useqs st)
            (Seqs._structures st) (Seqs._accessions st).

(** Entries that can be added to a registry one after the other as they
    are: each descriptor is tidy and free, each sequence valid and new. *)
Fixpoint addable (st : Seqs.t) (l : list (string * string)) : Prop :=
  match l with
  | [] => True
  | e :: l' =>
      tidy (fst e) /\ (fst e ∉ Seqs.dscrptrs st)
      /\ Seqs._validate_seq (snd e) = true /\ (snd e ∉ Seqs.seqs st)
      /\ addable (added st (fst e) (snd e)) l'
  end.



(** A list of structures as the registry keeps them: one of the two tags,
    then at least one structure. *)
Definition tagged (l : list string) : Prop :=
  exists tag rest,
    l = tag :: rest /\ (tag = "pdb" \/ tag = "EBI-AF") /\ rest <> [].


(** Whether the title of a report is a descriptor among the entries [l]. *)
Definition titled (l : list (string * string)) (r : Bl.report) : bool :=
  match Bl.query_title r with
  | Some d => Dict.has d l
  | None => false
  end.

(** The reports whose title is no descriptor of the registry. *)
Definition strangers (st : Seqs.t) (reports : list Bl.report)
    : list Bl.report :=
  List.filter (fun r => negb (titled (Seqs._seqs st) r)) reports.


(** Whether a string has no underscore. *)
Fixpoint no_underscore (s : string) : bool :=
  match s with
  | EmptyString => true
  | String c s' => negb (Ascii.eqb c "_") && no_underscore s'
  end.

End Spec.

(** ** Concrete inputs *)

Module Example.
Import Seqs.

(** The registry after a call of [add_seq]. *)
Definition after (r : option (Z * Seqs.t)) : Seqs.t :=
  match r with
  | Some (_, st) => st
  | None => init
  end.

(** One sequence under the descriptor [p1]. *)
Definition one_seq : Seqs.t := after (add_seq init "p1" "acd").



(** A sequence under a descriptor with parentheses, as a FASTA header may
    have them. *)
Definition kinase : Seqs.t := after (add_seq init "kinase (human)" "EEE").


(** A sequence under the descriptor [a+b]. *)
Definition aplusb : Seqs.t := after (add_seq init "a+b" "EEE").


(** Two hits that match a query of length 10; the second lists the
    accession of the first and then another one. *)
Definition full_hsp : Bl.hsp := Bl.Hsp 10 0 10 "ACDEFGHIKL" "ACDEFGHIKL".
Definition hit_a : Bl.hit :=
  Bl.Hit [full_hsp] [Bl.Descr "ref|WP_1|" "WP_1"; Bl.Descr "pdb|1ABC|A" "1ABC_A"].
Definition hit_ab : Bl.hit :=
  Bl.Hit [full_hsp] [Bl.Descr "ref|WP_1|" "WP_1"; Bl.Descr "gb|KX_2|" "KX_2"].

(** A response of the similarity search that is still waiting. *)
Definition waiting : string := "QBlastInfoBegin
    Status=WAITING
QBlastInfoEnd".


(** The registry after a call of [add_accessions] or [add_structures]. *)
Definition stored (r : result (bool * Seqs.t)) : Seqs.t :=
  match r with
  | Ok (_, st) => st
  | _ => init
  end.

(** [ACD] under [p1] with two accessions, and then with a pdb identifier
    from the hits. *)
Definition with_acc : Seqs.t :=
  stored (add_accessions one_seq "p1" ["P12345"; "Q99999"] "acd" true).
Definition with_pdb : Seqs.t :=
  stored (add_structures with_acc "p1" ["pdb"; "1ABC"] "acd" true).

(** [ACD] under [p1] with one accession and a predicted model. *)
Definition with_model : Seqs.t :=
  stored (add_structures
            (stored (add_accessions one_seq "p1" ["P12345"] "acd" true))
            "p1" ["EBI-AF"; "AF-P12345-F1-model_v4.cif"] EmptyString false).


(** A structure search that knows an entry for [Q99999] and nothing else. *)
Definition search2 (accession : string) : Pd.response :=
  if String.eqb accession "Q99999" then Pd.ResultSet ["2XYZ"]
  else Pd.NoContent.

(** A model service that has a model for every accession. *)
Definition fetch_all (accession : string) : Af.response :=
  Af.Model ("AF-" +:+ accession +:+ "-F1-model_v4.cif").

(** A model service that has a model for [Q99999] only. *)
Definition fetch2 (accession : string) : Af.response :=
  if String.eqb accession "Q99999" then Af.Model "AF-Q99999-F1-model_v4.cif"
  else Af.NotFound.




(** A sequence of length 10 under [q1], and the report of its search with
    the two hits above. *)
Definition ten : Seqs.t := after (add_seq init "q1" "acdefghikl").
Definition report_ten : Bl.report :=
  Bl.Report (Some "q1") (Some (Some "ACDEFGHIKL")) (Some 10) (Some [hit_a; hit_ab]).

(** A report whose sequence is given in lower case, and one without a
    sequence. *)
Definition report_lower : Bl.report :=
  Bl.Report (Some "q1") (Some (Some "acdefghikl")) (Some 10) (Some [hit_a]).
Definition report_null : Bl.report :=
  Bl.Report (Some "q2") (Some None) (Some 10) (Some []).

(** A conversion that answers one accession whatever it is asked. *)
Definition convert1 (a : list string) : result (list string) := Ok ["P12345"].


(** Two reports as the server gives them, without the sequence of the
    query: the search of [q1], and the search of a title the registry does
    not have. *)
Definition raw_ten : Bl.report :=
  Bl.Report (Some "q1") None (Some 10) (Some [hit_a; hit_ab]).
Definition raw_other : Bl.report :=
  Bl.Report (Some "q9") None (Some 10) (Some [hit_a]).

End Example.


(** * Properties *)

(** Case analysis on the condition of the first [if] of the goal. *)
Ltac break_if :=
  match goal with
  | |- context [if ?c then _ else _] => destruct c eqn:?
  end.

(** ** The gap pattern of [_checkhit] *)

Section GapRuns.
Import Re Spec.










End GapRuns.

(** ** HitMatcher: the decision *)

Section CheckHit.
Import Bl Spec.




End CheckHit.

(** ** Facts about the string methods *)

Section StrFacts.
Import PyStr.

Lemma append_cons c s t : String c s +:+ t = String c (s +:+ t).
Proof. reflexivity. Qed.

Lemma append_nil_l t : EmptyString +:+ t = t.
Proof. reflexivity. Qed.

Lemma append_assoc s t u : (s +:+ t) +:+ u = s +:+ t +:+ u.
Proof.
  induction s as [|c s IH]; [reflexivity|].
  rewrite !append_cons, IH. reflexivity.
Qed.

Lemma append_length s t :
  String.length (s +:+ t) = (String.length s + String.length t)%nat.
Proof.
  induction s as [|c s IH]; [reflexivity|].
  rewrite append_cons. cbn [String.length]. rewrite IH. reflexivity.
Qed.

Lemma digit_not_underscore c : is_digit c = true -> Ascii.eqb c "_" = false.
Proof.
  intros H. destruct (Ascii.eqb c "_") eqn:E; [|reflexivity].
  apply Ascii.eqb_eq in E. subst c. discriminate H.
Qed.

Lemma rcut_digits t : all_digits t = true -> rcut t = None.
Proof.
  induction t as [|c t IH]; [reflexivity|].
  cbn [all_digits rcut]. intros [Hc Ht]%andb_true_iff.
  rewrite (IH Ht), (digit_not_underscore c Hc). reflexivity.
Qed.

Lemma rcut_suffix d t :
  all_digits t = true -> rcut (d +:+ "_" +:+ t) = Some (d, t).
Proof.
  intros Ht. induction d as [|c d IH].
  - rewrite append_nil_l, append_cons, append_nil_l. cbn [rcut].
    rewrite (rcut_digits t Ht). reflexivity.
  - rewrite append_cons. cbn [rcut]. rewrite IH. reflexivity.
Qed.

Lemma rcut_join s h t : rcut s = Some (h, t) -> s = h +:+ "_" +:+ t.
Proof.
  revert h. induction s as [|c s IH]; intros h; cbn [rcut]; [discriminate|].
  destruct (rcut s) as [[h' t']|].
  - intros [= <- <-]. rewrite append_cons. f_equal. apply IH. reflexivity.
  - destruct (Ascii.eqb c "_") eqn:E; [|discriminate].
    apply Ascii.eqb_eq in E. subst c. intros [= <- <-]. reflexivity.
Qed.

Lemma join_rsplit1 s : join "_" (rsplit1 s) = s.
Proof.
  unfold rsplit1. destruct (rcut s) as [[h t]|] eqn:E; [|reflexivity].
  cbn [join]. symmetry. apply rcut_join. exact E.
Qed.

Lemma uint_digits u : all_digits (NilEmpty.string_of_uint u) = true.
Proof. induction u; cbn [NilEmpty.string_of_uint all_digits]; auto. Qed.

Lemma str_digits n : all_digits (str n) = true.
Proof.
  unfold str, NilZero.string_of_uint.
  destruct (N.to_uint n); try apply uint_digits. reflexivity.
Qed.

Lemma to_uint_nonnil n : N.to_uint n <> Decimal.Nil.
Proof.
  destruct n as [|p]; [discriminate|]. apply DecimalPos.Unsigned.to_uint_nonnil.
Qed.

Lemma str_nonempty n : str n <> EmptyString.
Proof.
  unfold str, NilZero.string_of_uint.
  destruct (N.to_uint n); discriminate.
Qed.

Lemma isdecimal_str n : isdecimal (str n) = true.
Proof.
  unfold isdecimal. pose proof (str_nonempty n) as Hn.
  pose proof (str_digits n) as Hd.
  destruct (str n); [contradiction | exact Hd].
Qed.

Lemma int_str n : int (str n) = n.
Proof.
  unfold int, str. rewrite NilZero.usu by apply to_uint_nonnil.
  apply DecimalN.Unsigned.of_to.
Qed.

Lemma str_inj n m : str n = str m -> n = m.
Proof. intros H. rewrite <- (int_str n), <- (int_str m), H. reflexivity. Qed.

Lemma append_inv_l s t u : s +:+ t = s +:+ u -> t = u.
Proof.
  induction s as [|c s IH]; [trivial|].
  rewrite !append_cons. intros [= H]. auto.
Qed.

Lemma append_neq_self s c t : s <> s +:+ String c t.
Proof.
  intros H. apply (f_equal String.length) in H.
  rewrite append_length in H. cbn [String.length] in H. lia.
Qed.

End StrFacts.

(** ** Facts about dictionaries *)

Section DictFacts.
Context {V : Type}.
Implicit Types (d : list (string * V)) (k : string) (v : V).

Lemma has_keys k d : Dict.has k d = true <-> k ∈ Dict.keys d.
Proof.
  unfold Dict.has, Dict.keys. induction d as [|[k' v'] d IH]; cbn [Dict.get map fst].
  - split; [discriminate | intros H; inversion H].
  - rewrite elem_of_cons. destruct (String.eqb k k') eqn:E.
    + apply String.eqb_eq in E. tauto.
    + apply String.eqb_neq in E. tauto.
Qed.

Lemma has_false_keys k d : Dict.has k d = false <-> k ∉ Dict.keys d.
Proof.
  rewrite <- has_keys. destruct (Dict.has k d); split; congruence.
Qed.

Lemma set_new k v d : Dict.has k d = false -> Dict.set k v d = d ++ [(k, v)].
Proof.
  unfold Dict.has. induction d as [|[k' v'] d IH]; cbn [Dict.get Dict.set app].
  - reflexivity.
  - destruct (String.eqb k k'); [discriminate|].
    intros H. rewrite (IH H). reflexivity.
Qed.

Lemma get_set_eq k v d : Dict.get k (Dict.set k v d) = Some v.
Proof.
  induction d as [|[k' v'] d IH]; cbn [Dict.get Dict.set].
  - rewrite String.eqb_refl. reflexivity.
  - destruct (String.eqb k k') eqn:E; cbn [Dict.get].
    + rewrite String.eqb_refl. reflexivity.
    + rewrite E. exact IH.
Qed.

Lemma get_set_ne k k' v d :
  k <> k' -> Dict.get k' (Dict.set k v d) = Dict.get k' d.
Proof.
  intros Hne. induction d as [|[k0 v0] d IH]; cbn [Dict.get Dict.set].
  - replace (String.eqb k' k) with false; [reflexivity|].
    symmetry. apply String.eqb_neq. congruence.
  - destruct (String.eqb k k0) eqn:E; cbn [Dict.get].
    + apply String.eqb_eq in E. subst k0.
      replace (String.eqb k' k) with false; [reflexivity|].
      symmetry. apply String.eqb_neq. congruence.
    + rewrite IH. reflexivity.
Qed.

Lemma keys_set_old k v d :
  Dict.has k d = true -> Dict.keys (Dict.set k v d) = Dict.keys d.
Proof.
  unfold Dict.has, Dict.keys.
  induction d as [|[k' v'] d IH]; cbn [Dict.get Dict.set map fst]; [discriminate|].
  destruct (String.eqb k k') eqn:E; cbn [map fst].
  - apply String.eqb_eq in E. subst. reflexivity.
  - intros H. rewrite (IH H). reflexivity.
Qed.

Lemma get_In k v d : Dict.get k d = Some v -> (k, v) ∈ d.
Proof.
  induction d as [|[k' v'] d IH]; cbn [Dict.get]; [discriminate|].
  destruct (String.eqb k k') eqn:E.
  - apply String.eqb_eq in E. intros [= ->]. subst. left.
  - intros H. right. auto.
Qed.

End DictFacts.

(** ** The registry: the loop of [add_seq] *)

Section Bump.
Import PyStr Seqs Spec.

Lemma isdecimal_digits t : isdecimal t = true -> all_digits t = true.
Proof. destruct t; [discriminate | trivial]. Qed.

Lemma bump_suffix h t :
  isdecimal t = true ->
  bump (h +:+ "_" +:+ t) = h +:+ "_" +:+ str (int t + 1).
Proof.
  intros Ht. unfold bump, rsplit1.
  rewrite (rcut_suffix h t (isdecimal_digits t Ht)), Ht. reflexivity.
Qed.

Lemma bump_plain d : has_suffix d = false -> bump d = d +:+ "_" +:+ str 2.
Proof.
  unfold has_suffix, bump, rsplit1. destruct (rcut d) as [[h t]|] eqn:E.
  - intros ->. cbn [app join]. rewrite (rcut_join d h t E), !append_assoc.
    reflexivity.
  - intros _. reflexivity.
Qed.

Lemma bump_stem d :
  bump d = fst (stem d) +:+ "_" +:+ str (snd (stem d) + 1).
Proof.
  unfold stem. destruct (rcut d) as [[h t]|] eqn:E.
  - destruct (isdecimal t) eqn:Ht; cbn [fst snd].
    + rewrite (rcut_join d h t E) at 1. apply bump_suffix. exact Ht.
    + apply bump_plain. unfold has_suffix. rewrite E. exact Ht.
  - cbn [fst snd]. apply bump_plain. unfold has_suffix. rewrite E. reflexivity.
Qed.

Lemma iter_bump_suffix j h n :
  iter_bump j (h +:+ "_" +:+ str n) = h +:+ "_" +:+ str (n + N.of_nat j).
Proof.
  revert n. induction j as [|j IH]; intros n.
  - cbn [iter_bump]. rewrite N.add_0_r. reflexivity.
  - cbn [iter_bump]. rewrite bump_suffix by apply isdecimal_str.
    rewrite int_str, IH. f_equal. f_equal. f_equal. lia.
Qed.

Lemma iter_bump_stem j d :
  iter_bump (S j) d
  = fst (stem d) +:+ "_" +:+ str (snd (stem d) + N.of_nat (S j)).
Proof.
  cbn [iter_bump]. rewrite bump_stem, iter_bump_suffix.
  f_equal. f_equal. f_equal. lia.
Qed.

Lemma stem_first j d :
  d <> fst (stem d) +:+ "_" +:+ str (snd (stem d) + N.of_nat (S j)).
Proof.
  unfold stem. destruct (rcut d) as [[h t]|] eqn:E.
  - destruct (isdecimal t) eqn:Ht; cbn [fst snd].
    + rewrite (rcut_join d h t E) at 1. intros H.
      apply append_inv_l, append_inv_l in H.
      apply (f_equal int) in H. rewrite int_str in H. lia.
    + apply append_neq_self.
  - cbn [fst snd]. apply append_neq_self.
Qed.

Lemma iter_bump_inj i j d : iter_bump i d = iter_bump j d -> i = j.
Proof.
  destruct i as [|i], j as [|j]; [reflexivity| | |].
  - rewrite iter_bump_stem. cbn [iter_bump]. intros H.
    exfalso. exact (stem_first j d H).
  - rewrite iter_bump_stem. cbn [iter_bump]. intros H.
    exfalso. symmetry in H. exact (stem_first i d H).
  - rewrite !iter_bump_stem. intros H.
    apply append_inv_l, append_inv_l, str_inj in H. lia.
Qed.

Lemma unique_some fuel known d d' :
  unique fuel known d = Some d' ->
  exists k, (k <= fuel)%nat /\ d' = iter_bump k d
            /\ Dict.has d' known = false
            /\ forall j, (j < k)%nat -> Dict.has (iter_bump j d) known = true.
Proof.
  revert d. induction fuel as [|fuel IH]; intros d; cbn [unique].
  - destruct (Dict.has d known) eqn:E; [discriminate|]. intros [= <-].
    exists O. repeat split; [lia | exact E | intros j Hj; lia].
  - destruct (Dict.has d known) eqn:E.
    + intros H. destruct (IH _ H) as (k & Hk & -> & Hfree & Hbusy).
      exists (S k). repeat split; [lia | exact Hfree |].
      intros [|j] Hj; [exact E | apply Hbusy; lia].
    + intros [= <-].
      exists O. repeat split; [lia | exact E | intros j Hj; lia].
Qed.

Lemma unique_none fuel known d :
  unique fuel known d = None ->
  forall j, (j <= fuel)%nat -> Dict.has (iter_bump j d) known = true.
Proof.
  revert d. induction fuel as [|fuel IH]; intros d; cbn [unique].
  - destruct (Dict.has d known) eqn:E; [|discriminate].
    intros _ j Hj. replace j with O by lia. exact E.
  - destruct (Dict.has d known) eqn:E; [|discriminate].
    intros H [|j] Hj; [exact E | apply (IH _ H); lia].
Qed.

(** The loop ends within as many rounds as the registry has entries: the
    descriptors it tries are pairwise different, so they cannot all be
    taken. *)
Lemma unique_total (known : list (string * string)) d :
  exists d', unique (length known) known d = Some d'.
Proof.
  destruct (unique (length known) known d) as [d'|] eqn:E; [eauto|].
  exfalso. pose proof (unique_none _ _ _ E) as Hall.
  set (tried := (fun j => iter_bump j d) <$> seq 0 (S (length known))).
  assert (Hnd : NoDup tried).
  { apply NoDup_fmap_2_strong; [|apply NoDup_seq].
    intros i j _ _. apply iter_bump_inj. }
  assert (Hin : forall x, x ∈ tried -> x ∈ Dict.keys known).
  { intros x (j & -> & Hj)%list_elem_of_fmap. apply has_keys, Hall.
    apply elem_of_seq in Hj. lia. }
  pose proof (submseteq_length _ _ (NoDup_submseteq _ _ Hnd Hin)) as Hlen.
  unfold tried, Dict.keys in Hlen.
  rewrite !length_fmap, length_seq in Hlen. lia.
Qed.

End Bump.

(** ** The registry: [add_seq] and the invariant *)

Section Registry.
Import PyStr Seqs Spec.

Lemma add_seq_duplicate st dscrptr seq :
  normalize seq ∈ seqs st -> add_seq st dscrptr seq = Some (2, st).
Proof.
  intros H. unfold add_seq. fold (normalize seq).
  rewrite bool_decide_eq_false_2; [reflexivity|]. intros Hn. exact (Hn H).
Qed.

Lemma add_seq_invalid st dscrptr seq :
  normalize seq ∉ seqs st -> _validate_seq (normalize seq) = false ->
  add_seq st dscrptr seq = Some (1, st).
Proof.
  intros H Hv. unfold add_seq. fold (normalize seq).
  rewrite bool_decide_eq_true_2 by exact H. rewrite Hv. reflexivity.
Qed.

Lemma add_seq_added st dscrptr seq :
  normalize seq ∉ seqs st -> _validate_seq (normalize seq) = true ->
  exists k,
    (forall j, (j < k)%nat ->
               iter_bump j (first_dscrptr st dscrptr) ∈ dscrptrs st)
    /\ (iter_bump k (first_dscrptr st dscrptr) ∉ dscrptrs st)
    /\ add_seq st dscrptr seq
       = Some (0, Make (_seqs st
                        ++ [(iter_bump k (first_dscrptr st dscrptr), normalize seq)])
                       ({[normalize seq]} ∪ _useqs st)
                       (_structures st) (_accessions st)).
Proof.
  intros H Hv. unfold add_seq. fold (normalize seq).
  rewrite bool_decide_eq_true_2 by exact H. rewrite Hv.
  fold (first_dscrptr st dscrptr).
  destruct (unique_total (_seqs st) (first_dscrptr st dscrptr)) as [d' Hd'].
  rewrite Hd'.
  destruct (unique_some _ _ _ _ Hd') as (k & _ & -> & Hfree & Hbusy).
  exists k. split; [|split].
  - intros j Hj. apply has_keys, Hbusy, Hj.
  - apply has_false_keys, Hfree.
  - rewrite (set_new _ _ _ Hfree). reflexivity.
Qed.

(** [add_seq] returns: its loop always ends. *)
Lemma add_seq_total st dscrptr seq :
  exists c st', add_seq st dscrptr seq = Some (c, st').
Proof.
  destruct (decide (normalize seq ∈ seqs st)) as [H|H].
  - rewrite (add_seq_duplicate _ _ _ H). eauto.
  - destruct (_validate_seq (normalize seq)) eqn:Hv.
    + destruct (add_seq_added st dscrptr seq H Hv) as (k & _ & _ & ->). eauto.
    + rewrite (add_seq_invalid _ _ _ H Hv). eauto.
Qed.

Lemma wf_init : wf init.
Proof.
  split; cbn.
  - apply NoDup_nil_2.
  - apply NoDup_nil_2.
  - intros s. rewrite elem_of_nil. set_solver.
  - intros s Hs. apply elem_of_nil in Hs. contradiction.
Qed.

Lemma wf_same_seqs st st' :
  _seqs st' = _seqs st -> _useqs st' = _useqs st -> wf st -> wf st'.
Proof.
  intros H1 H2 [Hk Hv Hu Hok].
  split; unfold dscrptrs, seqs in *; rewrite ?H1, ?H2; assumption.
Qed.

Lemma wf_add_seq st dscrptr seq c st' :
  wf st -> add_seq st dscrptr seq = Some (c, st') -> wf st'.
Proof.
  intros Hwf Hadd.
  destruct (decide (normalize seq ∈ seqs st)) as [H|H].
  { rewrite (add_seq_duplicate _ _ _ H) in Hadd. congruence. }
  destruct (_validate_seq (normalize seq)) eqn:Hv.
  2:{ rewrite (add_seq_invalid _ _ _ H Hv) in Hadd. congruence. }
  destruct (add_seq_added st dscrptr seq H Hv) as (k & _ & Hfree & Heq).
  rewrite Heq in Hadd. injection Hadd as <- <-.
  destruct Hwf as [Hk Hvals Hu Hok].
  split; unfold dscrptrs, seqs, Dict.keys, Dict.values in *; cbn [_seqs _useqs].
  - rewrite map_app. cbn [map fst]. apply NoDup_app. split; [exact Hk|]. split.
    + intros x Hx Hx'. apply list_elem_of_singleton in Hx'. subst x. auto.
    + apply NoDup_singleton.
  - rewrite map_app. cbn [map snd]. apply NoDup_app. split; [exact Hvals|]. split.
    + intros x Hx Hx'. apply list_elem_of_singleton in Hx'. subst x.
      apply H, Hu, Hx.
    + apply NoDup_singleton.
  - intros s. rewrite map_app. cbn [map snd].
    rewrite elem_of_union, elem_of_singleton, elem_of_app, list_elem_of_singleton, Hu.
    tauto.
  - intros s. rewrite map_app. cbn [map snd].
    rewrite elem_of_app, list_elem_of_singleton. intros [Hs| ->]; auto.
Qed.

Lemma add_accessions_seqs st dscrptr accessions seq verify b st' :
  add_accessions st dscrptr accessions seq verify = Ok (b, st') ->
  _seqs st' = _seqs st /\ _useqs st' = _useqs st
  /\ _structures st' = _structures st.
Proof.
  unfold add_accessions.
  destruct (if verify then _ else _) as [d| | |]; cbn; try discriminate.
  repeat break_if; intros [=]; subst; auto.
Qed.

Lemma add_structures_seqs st dscrptr structures seq verify b st' :
  add_structures st dscrptr structures seq verify = Ok (b, st') ->
  _seqs st' = _seqs st /\ _useqs st' = _useqs st
  /\ _accessions st' = _accessions st.
Proof.
  unfold add_structures.
  destruct (if verify then _ else _) as [d| | |]; cbn; try discriminate.
  destruct structures as [|tag rest]; repeat break_if;
    try discriminate; intros [=]; subst; auto.
Qed.

(** Every registry the operations build satisfies the invariant. *)
Lemma reachable_wf st : reachable st -> wf st.
Proof.
  induction 1 as [|st d s c st' _ IH Hadd|st d a s v b st' _ IH Hadd
                  |st d l s v b st' _ IH Hadd].
  - apply wf_init.
  - eapply wf_add_seq; eassumption.
  - apply add_accessions_seqs in Hadd as (H1 & H2 & _).
    eapply wf_same_seqs; eassumption.
  - apply add_structures_seqs in Hadd as (H1 & H2 & _).
    eapply wf_same_seqs; eassumption.
Qed.

Lemma get_seq_value st d s : get_seq st d = Some s -> s ∈ Dict.values (_seqs st).
Proof.
  intros H. apply get_In in H. unfold Dict.values.
  apply list_elem_of_fmap. exists (d, s). auto.
Qed.

(** In an association list without repeated values a value has one key. *)
Lemma values_nodup_key (l : list (string * string)) d1 d2 s :
  NoDup (Dict.values l) -> (d1, s) ∈ l -> (d2, s) ∈ l -> d1 = d2.
Proof.
  unfold Dict.values. induction l as [|[k v] l IH]; cbn [map snd].
  - intros _ H. apply elem_of_nil in H. contradiction.
  - rewrite NoDup_cons. intros [Hv Hnd] H1 H2.
    apply elem_of_cons in H1, H2.
    assert (Hin : forall d, (d, s) ∈ l -> s ∈ map snd l).
    { intros d Hd. apply list_elem_of_fmap. exists (d, s). auto. }
    destruct H1 as [E1|H1], H2 as [E2|H2]; simplify_eq; auto.
    + exfalso. apply Hv. eauto.
    + exfalso. apply Hv. eauto.
Qed.


End Registry.

(** ** The registry: uniqueness of sequences *)

Section Uniqueness.
Import PyStr Seqs Spec.


End Uniqueness.

(** ** The registry: descriptors of sequences added under one name *)

Section Numbered.
Import PyStr Seqs Spec.

Lemma stem_plain d : has_suffix d = false -> stem d = (d, 1%N).
Proof.
  unfold has_suffix, stem. destruct (rcut d) as [[h t]|]; [|reflexivity].
  intros ->. reflexivity.
Qed.

Lemma iter_bump_plain j d :
  has_suffix d = false -> iter_bump (S j) d = suffixed d (S (S j)).
Proof.
  intros Hd. rewrite iter_bump_stem, (stem_plain d Hd). cbn [fst snd].
  unfold suffixed. f_equal. f_equal. f_equal. lia.
Qed.






End Numbered.

(** ** The registry: instances *)

Section RegistryInstances.
Import PyStr Seqs Spec.

Lemma one_seq_reachable : reachable Example.one_seq.
Proof.
  apply (reach_add_seq init "p1" "acd" 0); [apply reach_init|].
  vm_compute. reflexivity.
Qed.




End RegistryInstances.

(** ** The registry: [add_structures] *)

Section AddStructures.
Import PyStr Seqs Spec.

Lemma resolves_bind st dscrptr seq verify d {A} (k : string -> result A) :
  resolves st dscrptr seq verify d ->
  ((if verify then _verify_dscrptr st dscrptr seq else Ok dscrptr) ≫= k) = k d
  /\ verify && String.eqb d "" = false.
Proof.
  unfold resolves. destruct verify.
  - intros [-> Hne]. split; [reflexivity|].
    apply String.eqb_neq in Hne. rewrite Hne. reflexivity.
  - intros ->. split; reflexivity.
Qed.

Lemma mem_valid tag : mem tag valid = true <-> tag = "pdb" \/ tag = "EBI-AF".
Proof.
  unfold mem, valid. cbn [existsb].
  rewrite !orb_true_iff, !String.eqb_eq. intuition discriminate.
Qed.

(** C9. Once the descriptor is resolved (or verification is skipped),
    [add_structures] raises [ValueError] when the list is empty or its first
    element is neither [pdb] nor [EBI-AF]; with a valid tag it returns
    [True], leaves the registry as it is when the list holds only the tag,
    and otherwise puts the whole list in the place of whatever was stored
    for the descriptor, touching nothing else. *)
Theorem add_structures_checked (st : Seqs.t) (dscrptr seq : string)
    (structures : list string) (verify : bool) (d : string) :
  resolves st dscrptr seq verify d ->
  (structures = [] ->
   add_structures st dscrptr structures seq verify = Raise ValueError)
  /\ (forall tag rest,
         structures = tag :: rest -> tag <> "pdb" -> tag <> "EBI-AF" ->
         add_structures st dscrptr structures seq verify = Raise ValueError)
  /\ (forall tag,
         structures = [tag] -> tag = "pdb" \/ tag = "EBI-AF" ->
         add_structures st dscrptr structures seq verify = Ok (true, st))
  /\ (forall tag ref rest,
         structures = tag :: ref :: rest -> tag = "pdb" \/ tag = "EBI-AF" ->
         add_structures st dscrptr structures seq verify
         = Ok (true, with_structures st d structures)
         /\ get_structures (with_structures st d structures) d = Some structures
         /\ forall d', d' <> d ->
              get_structures (with_structures st d structures) d'
              = get_structures st d').
Proof.
  intros Hres. unfold add_structures.
  destruct (resolves_bind st dscrptr seq verify d
              (fun dscrptr0 =>
                 if verify && String.eqb dscrptr0 "" then Ok (false, st)
                 else match structures with
                      | [] => Raise ValueError
                      | tag :: _ =>
                          if negb (mem tag valid) then Raise ValueError
                          else if (1 <? length structures)%nat
                               then Ok (true, Make (_seqs st) (_useqs st)
                                      (<[dscrptr0 := structures]> (_structures st))
                                      (_accessions st))
                               else Ok (true, st)
                      end) Hres) as [-> ->].
  split; [|split; [|split]].
  - intros ->. reflexivity.
  - intros tag rest -> H1 H2.
    destruct (mem tag valid) eqn:E; [|reflexivity].
    apply mem_valid in E. tauto.
  - intros tag -> Htag. apply mem_valid in Htag. rewrite Htag. reflexivity.
  - intros tag ref rest -> Htag. apply mem_valid in Htag. rewrite Htag.
    split; [reflexivity|]. unfold get_structures, with_structures.
    cbn [_structures]. split.
    + apply lookup_insert_eq.
    + intros d' Hne. apply lookup_insert_ne. congruence.
Qed.

(** The theorem at the registry that holds [ACD] under [p1], with the
    descriptor reported as [p1_7] and two pdb identifiers. *)
Lemma add_structures_checked_witness :
  resolves Example.one_seq "p1_7" "acd" true "p1"
  /\ add_structures Example.one_seq "p1_7" ["pdb"; "1ABC"; "2XYZ"] "acd" true
     = Ok (true, with_structures Example.one_seq "p1" ["pdb"; "1ABC"; "2XYZ"])
  /\ add_structures Example.one_seq "p1_7" ["AF"; "1ABC"] "acd" true
     = Raise ValueError.
Proof.
  assert (H : resolves Example.one_seq "p1_7" "acd" true "p1").
  { split; [vm_compute; reflexivity | discriminate]. }
  split; [exact H|]. split.
  - destruct (add_structures_checked _ _ _ ["pdb"; "1ABC"; "2XYZ"] _ _ H)
      as (_ & _ & _ & Hstore).
    apply (Hstore "pdb" "1ABC" ["2XYZ"]); [reflexivity | left; reflexivity].
  - destruct (add_structures_checked _ _ _ ["AF"; "1ABC"] _ _ H)
      as (_ & Hraise & _).
    apply (Hraise "AF" ["1ABC"]); [reflexivity | discriminate..].
Defined.

End AddStructures.

(** ** The registry: [_verify_dscrptr] *)

Section VerifyDscrptr.
Import PyStr Seqs Spec.

Lemma after_reachable dscrptr seq :
  reachable (Example.after (add_seq init dscrptr seq)).
Proof.
  destruct (add_seq_total init dscrptr seq) as (c & st' & H). rewrite H.
  cbn [Example.after]. eapply reach_add_seq; [apply reach_init | exact H].
Qed.

(** The pattern is the stripped candidate, less a trailing underscore and
    decimal digits, followed by the optional suffix and the anchor; the
    candidate goes into it as it is. *)
Lemma verify_pattern_raw d :
  verify_pattern d = fst (stem d) +:+ "(?:_\d+)?$".
Proof.
  unfold verify_pattern, stem, rsplit1.
  destruct (rcut d) as [[h t]|]; [|reflexivity].
  destruct (isdecimal t); reflexivity.
Qed.

(** The loop returns the first descriptor, in the order of the registry,
    that the compiled pattern matches and that holds the sequence, and the
    empty string when there is none. *)
Lemma first_match_find st pattern r s ks :
  Re.compile pattern = Re.Pattern r ->
  first_match st pattern s ks
  = Ok (from_option id EmptyString
          (List.find (fun k => Re.nonempty (Re.run r k)
                               && bool_decide (get_seq st k = Some s)) ks)).
Proof.
  intros Hc. induction ks as [|k ks IH]; [reflexivity|].
  cbn [first_match List.find]. unfold Re.matches, Re.with_pattern. rewrite Hc.
  cbn [mbind result_bind].
  destruct (Re.nonempty (Re.run r k) && bool_decide (get_seq st k = Some s));
    [reflexivity | exact IH].
Qed.

(** C6 on the code: a registry that holds [EEE] under the descriptor
    [kinase (human)] does not resolve this very descriptor with this very
    sequence, because the parentheses of the candidate are read as a group;
    [add_accessions] then reports a mismatch and stores nothing. Likewise
    [a+b] is not resolved to itself, and a candidate with an unbalanced
    parenthesis raises the error of [re] instead of returning. *)
Theorem verify_dscrptr_unescaped :
  reachable Example.kinase
  /\ get_seq Example.kinase "kinase (human)" = Some "EEE"
  /\ _verify_dscrptr Example.kinase "kinase (human)" "EEE" = Ok EmptyString
  /\ add_accessions Example.kinase "kinase (human)" ["P12345"] "EEE" true
     = Ok (false, Example.kinase)
  /\ get_seq Example.aplusb "a+b" = Some "EEE"
  /\ _verify_dscrptr Example.aplusb "a+b" "EEE" = Ok EmptyString
  /\ _verify_dscrptr Example.aplusb "a(b" "EEE" = Raise ReError.
Proof.
  split; [apply after_reachable|].
  repeat split; vm_compute; reflexivity.
Qed.


End VerifyDscrptr.

(** ** JobPoller: the delays of the two polling loops *)

Section Polling.
Import PyStr Bl Spec.

Lemma run_round_again rid delay text delay' :
  run_round rid delay text = Again delay' -> delay' = delay + 10.
Proof.
  unfold run_round, _outcome. repeat break_if; intros [=]. congruence.
Qed.

Lemma run_loop_ramp rid texts :
  forall delay,
    fst (run_loop rid delay texts)
    = ramp delay (length (fst (run_loop rid delay texts))).
Proof.
  induction texts as [|text texts IH]; intros delay; [reflexivity|].
  cbn [run_loop]. destruct (run_round rid delay text) as [delay'| |] eqn:E.
  - apply run_round_again in E. subst delay'. cbn [fst length].
    rewrite IH at 1. unfold ramp. cbn [seq map]. f_equal; [lia|].
    rewrite <- seq_shift, map_map. apply map_ext. intros i. lia.
  - cbn. f_equal. lia.
  - cbn. f_equal. lia.
Qed.

Lemma status_round_again delay status delay' :
  status_round delay status = Again delay' -> delay' = delay.
Proof.
  unfold status_round. destruct status as [s|]; [|discriminate].
  break_if; intros [=]. congruence.
Qed.

Lemma status_loop_constant statuses :
  forall delay, Forall (eq delay) (fst (status_loop delay statuses)).
Proof.
  induction statuses as [|s statuses IH]; intros delay; [constructor|].
  cbn [status_loop]. destruct (status_round delay s) as [delay'| |] eqn:E.
  - apply status_round_again in E. subst delay'. cbn [fst].
    constructor; [reflexivity | apply IH].
  - constructor.
  - constructor.
Qed.

Lemma jobs_loop_constant jobs :
  forall delay, Forall (eq delay) (fst (jobs_loop delay jobs)).
Proof.
  induction jobs as [|statuses jobs IH]; intros delay; [constructor|].
  cbn [jobs_loop]. pose proof (status_loop_constant statuses delay) as H.
  destruct (status_loop delay statuses) as [slept [[d'| |]|]]; cbn [fst] in *;
    try exact H.
  apply Forall_app. split; [exact H | apply IH].
Qed.

(** C7, as amended. In the loop of the similarity search every waiting
    round adds 10 to the delay, so the delays slept are [delay], [delay +
    10], [delay + 20], ... and never go down or back. In the loop of the
    identifier-mapping jobs a waiting round leaves the delay as it is: every
    delay slept, for every job, is the one the loop started with. *)
Theorem polling_delays :
  (forall rid delay text delay',
      run_round rid delay text = Again delay' -> delay' = delay + 10)
  /\ (forall rid delay texts,
         fst (run_loop rid delay texts)
         = ramp delay (length (fst (run_loop rid delay texts))))
  /\ (forall delay status delay',
         status_round delay status = Again delay' -> delay' = delay)
  /\ (forall delay jobs, Forall (eq delay) (fst (jobs_loop delay jobs))).
Proof.
  split; [exact run_round_again|].
  split; [intros rid delay texts; apply run_loop_ramp|].
  split; [exact status_round_again | intros delay jobs; apply jobs_loop_constant].
Qed.

(** The theorem at a waiting response of the similarity search and at a
    running mapping job. *)
Lemma polling_delays_witness :
  run_round "R1" run_delay Example.waiting = Again 20
  /\ fst (run_loop "R1" run_delay [Example.waiting; Example.waiting; Example.waiting])
     = [10; 20; 30]
  /\ status_round status_delay (Some "RUNNING") = Again 15
  /\ Forall (eq 15) (fst (jobs_loop status_delay [[Some "NEW"; Some "RUNNING"; None]; [None]])).
Proof.
  destruct polling_delays as (H1 & H2 & H3 & H4).
  assert (E : run_round "R1" run_delay Example.waiting = Again 20)
    by (vm_compute; reflexivity).
  split; [exact E|]. split.
  - rewrite H2. vm_compute. reflexivity.
  - split; [vm_compute; reflexivity | apply H4].
Defined.

(** C7 fails as stated: a waiting round of an identifier-mapping job does
    not increase the delay. The job below is polled three times while
    running, and the program sleeps 15 seconds each time. *)
Lemma polling_counterexample :
  status_round status_delay (Some "RUNNING") = Again status_delay
  /\ fst (jobs_loop status_delay [[Some "RUNNING"; Some "RUNNING"; Some "RUNNING"; None]])
     = [15; 15; 15]
  /\ ~ (status_delay < status_delay).
Proof.
  split; [reflexivity|]. split; [vm_compute; reflexivity | lia].
Qed.

End Polling.

(** ** HitMatcher: the evidence of one hit *)

Section Evidence.
Import PyStr Bl Spec.

Lemma acc_pdb_loop_spec ds :
  forall flag pdbs accessions,
    acc_pdb_loop ds flag pdbs accessions
    = (fold_left add_new (pdb_bases ds) pdbs,
       if flag then
         match first_new accessions ds with
         | Some d => accessions ++ [accession d]
         | None => accessions
         end
       else accessions).
Proof.
  induction ds as [|d ds IH]; intros flag pdbs accessions.
  - destruct flag; reflexivity.
  - cbn [acc_pdb_loop]. unfold pdb_bases, first_new. cbn [List.filter List.find].
    fold (is_pdb d). destruct (is_pdb d) eqn:Ep; cbn [map fold_left negb andb].
    + fold (base (accession d)). unfold add_new at 2.
      destruct (mem (base (accession d)) pdbs); cbn [negb]; apply IH.
    + destruct flag; [|apply IH].
      destruct (mem (accession d) accessions); cbn [negb].
      * apply IH.
      * rewrite IH. reflexivity.
Qed.

(** C8, as amended. For one matching hit, every record tagged as a
    structure-database record adds the part of its accession before the
    first underscore to the list of structures unless it is there; the first
    record that is not so tagged and whose accession is not yet among the
    accessions of the query adds its accession, and no other record adds
    one. When the query has no accession yet, this is the first record that
    is not tagged as a structure-database record. *)
Theorem acc_pdb_from_hit_spec :
  (forall (h : hit) (pdbs accessions : list string),
      _acc_pdb_from_hit h pdbs accessions
      = (fold_left add_new (pdb_bases (description h)) pdbs,
         match first_new accessions (description h) with
         | Some d => accessions ++ [accession d]
         | None => accessions
         end))
  /\ (forall (h : hit) (pdbs : list string),
         snd (_acc_pdb_from_hit h pdbs [])
         = match first_other (description h) with
           | Some d => [accession d]
           | None => []
           end).
Proof.
  split.
  - intros h pdbs accessions. apply acc_pdb_loop_spec.
  - intros h pdbs. unfold _acc_pdb_from_hit. rewrite acc_pdb_loop_spec.
    cbn [snd]. unfold first_new, first_other.
    assert (E : forall ds,
               List.find (fun d => negb (is_pdb d) && negb (mem (accession d) [])) ds
               = List.find (fun d => negb (is_pdb d)) ds).
    { intros ds. induction ds as [|d ds IH]; [reflexivity|]. cbn [List.find].
      change (mem (accession d) []) with false. cbn [negb].
      rewrite andb_true_r, IH. reflexivity. }
    rewrite E. destruct (List.find _ _); reflexivity.
Qed.

(** C8 fails as stated: the second hit below lists first a record whose
    accession the first hit has already given, and its second record, which
    is not a structure-database record either, is not ignored: its
    accession is added. *)
Lemma acc_pdb_counterexample :
  first_other (description Example.hit_ab) = Some (Descr "ref|WP_1|" "WP_1")
  /\ hits_loop [Example.hit_a; Example.hit_ab] 10 ["pdb"] []
     = Ok (["pdb"; "1ABC"], ["WP_1"; "KX_2"])
  /\ _acc_pdb_from_hit Example.hit_ab ["pdb"; "1ABC"] ["WP_1"]
     = (["pdb"; "1ABC"], ["WP_1"; "KX_2"]).
Proof.
  repeat split; vm_compute; reflexivity.
Qed.

End Evidence.

(** ** Lists without repetition, as the program builds them *)

Section AddNew.
Import PyStr Spec.

Lemma mem_elem x (l : list string) : mem x l = true <-> x ∈ l.
Proof.
  unfold mem. rewrite existsb_exists. split.
  - intros (y & Hy & E). apply String.eqb_eq in E. subst y.
    apply list_elem_of_In. exact Hy.
  - intros H. exists x. split; [apply list_elem_of_In, H | apply String.eqb_refl].
Qed.

Lemma add_new_elem x y (l : list string) : x ∈ add_new l y <-> x ∈ l \/ x = y.
Proof.
  unfold add_new. destruct (mem y l) eqn:E.
  - apply mem_elem in E. split; [auto|]. intros [H| ->]; assumption.
  - rewrite elem_of_app, list_elem_of_singleton. reflexivity.
Qed.


Lemma add_new_nodup y (l : list string) : NoDup l -> NoDup (add_new l y).
Proof.
  intros H. unfold add_new. destruct (mem y l) eqn:E; [exact H|].
  apply NoDup_app. split; [exact H|]. split; [|apply NoDup_singleton].
  intros x Hx Hy. apply list_elem_of_singleton in Hy. subst x.
  apply mem_elem in Hx. congruence.
Qed.

Lemma fold_add_new_nodup (l p : list string) :
  NoDup p -> NoDup (fold_left add_new l p).
Proof.
  revert p. induction l as [|y l IH]; intros p H; cbn [fold_left]; [exact H|].
  apply IH, add_new_nodup, H.
Qed.

Lemma fold_add_new_prefix (l p : list string) :
  exists extra, fold_left add_new l p = p ++ extra.
Proof.
  revert p. induction l as [|y l IH]; intros p; cbn [fold_left].
  - exists []. rewrite app_nil_r. reflexivity.
  - destruct (IH (add_new p y)) as [extra ->]. unfold add_new.
    destruct (mem y p); [eauto|]. rewrite <- app_assoc. eauto.
Qed.

Lemma fold_add_unique ids (p : list string) :
  fold_left Pd.add_unique ids p = fold_left add_new (map base ids) p.
Proof.
  revert p. induction ids as [|i ids IH]; intros p; [reflexivity|].
  cbn [fold_left map]. rewrite <- IH. f_equal.
  unfold Pd.add_unique, add_new, base. destruct (mem _ p); reflexivity.
Qed.

End AddNew.

(** ** Facts about the accessions of a registry *)

Section Accessions.
Import PyStr Seqs Spec.

Lemma keys_set_nodup {V} k (v : V) d :
  NoDup (Dict.keys d) -> NoDup (Dict.keys (Dict.set k v d)).
Proof.
  intros H. destruct (Dict.has k d) eqn:E.
  - rewrite (keys_set_old k v d E). exact H.
  - rewrite (set_new k v d E). unfold Dict.keys in *. rewrite map_app.
    cbn [map fst]. apply NoDup_app. split; [exact H|]. split; [|apply NoDup_singleton].
    intros x Hx Hk. apply list_elem_of_singleton in Hk. subst x.
    apply has_false_keys in E. contradiction.
Qed.

Lemma add_accessions_keys st dscrptr accs seq verify b st' :
  add_accessions st dscrptr accs seq verify = Ok (b, st') ->
  NoDup (Dict.keys (_accessions st)) -> NoDup (Dict.keys (_accessions st')).
Proof.
  unfold add_accessions.
  destruct (if verify then _ else _) as [d| | |]; cbn; try discriminate.
  repeat break_if; intros [=]; subst; auto.
  cbn [_accessions]. apply keys_set_nodup.
Qed.

Lemma add_seq_accessions st dscrptr seq c st' :
  add_seq st dscrptr seq = Some (c, st') -> _accessions st' = _accessions st.
Proof.
  unfold add_seq. repeat break_if; try (intros [=]; subst; reflexivity).
  all: destruct (unique _ _ _); intros [=]; subst; reflexivity.
Qed.

(** No descriptor has two lists of accessions. *)
Lemma reachable_accessions st :
  reachable st -> NoDup (Dict.keys (accessions st)).
Proof.
  unfold accessions.
  induction 1 as [|st d s c st' _ IH Hadd|st d a s v b st' _ IH Hadd
                  |st d l s v b st' _ IH Hadd].
  - apply NoDup_nil_2.
  - rewrite (add_seq_accessions _ _ _ _ _ Hadd). exact IH.
  - eapply add_accessions_keys; eassumption.
  - apply add_structures_seqs in Hadd as (_ & _ & ->). exact IH.
Qed.

End Accessions.

(** ** StructureReconciler: the search by accession *)

Section PdbPass.
Import PyStr Seqs Spec.



Lemma known_head st d : exists rest, Pd.known st d = "pdb" :: rest.
Proof.
  unfold Pd.known. destruct (get_structures st d) as [[|tag rest]|]; eauto.
  destruct (String.eqb tag "pdb") eqn:E; eauto.
  apply String.eqb_eq in E. subst tag. eauto.
Qed.


Lemma add_structures_unverified st d tag rest :
  mem tag valid = true ->
  add_structures st d (tag :: rest) EmptyString false
  = Ok (true, if (1 <? length (tag :: rest))%nat
              then with_structures st d (tag :: rest) else st).
Proof.
  intros Htag. unfold add_structures. cbn [mbind result_bind andb].
  rewrite Htag. cbn [negb]. destruct (1 <? length (tag :: rest))%nat; reflexivity.
Qed.

(** The registry after the search for one descriptor. *)
Lemma pdb_step_structures st d l d' :
  get_structures (if (1 <? length l)%nat then with_structures st d l else st) d'
  = if String.eqb d' d
    then (if (1 <? length l)%nat then Some l else get_structures st d)
    else get_structures st d'.
Proof.
  unfold get_structures, with_structures.
  destruct (String.eqb d' d) eqn:E.
  - apply String.eqb_eq in E. subst d'.
    destruct (1 <? length l)%nat; [apply lookup_insert_eq | reflexivity].
  - apply String.eqb_neq in E.
    destruct (1 <? length l)%nat; [|reflexivity].
    cbn [_structures]. apply lookup_insert_ne. congruence.
Qed.




End PdbPass.

(** ** StructureReconciler: the search by accession, instances *)

Section PdbInstances.
Import PyStr Seqs Spec.

Lemma stored_reachable st r :
  reachable st ->
  (exists d a s v, r = add_accessions st d a s v)
  \/ (exists d l s v, r = add_structures st d l s v) ->
  reachable (Example.stored r).
Proof.
  intros Hst [(d & a & s & v & ->)|(d & l & s & v & ->)].
  - destruct (add_accessions st d a s v) as [[b st']| | |] eqn:E;
      try apply reach_init.
    eapply reach_add_accessions; eassumption.
  - destruct (add_structures st d l s v) as [[b st']| | |] eqn:E;
      try apply reach_init.
    eapply reach_add_structures; eassumption.
Qed.

Lemma with_acc_reachable : reachable Example.with_acc.
Proof. apply (stored_reachable _ _ one_seq_reachable). left. eauto. Qed.

Lemma with_pdb_reachable : reachable Example.with_pdb.
Proof. apply (stored_reachable _ _ with_acc_reachable). right. eauto. Qed.

Lemma with_model_reachable : reachable Example.with_model.
Proof.
  unfold Example.with_model. eapply stored_reachable; [|right; eauto].
  apply (stored_reachable _ _ one_seq_reachable). left. eauto.
Qed.



(** What the loop does after an answer of "no content": it leaves the
    accessions that follow unqueried. Here the second accession has an
    entry, and the descriptor ends without it. *)
Lemma no_content_ends_search :
  exists st',
    Pd.uniprot_to_pdb Example.search2 Example.with_acc = Ok (st', ["P12345"])
    /\ get_structures st' "p1" = None.
Proof. eexists. split; vm_compute; reflexivity. Qed.

End PdbInstances.

(** ** StructureReconciler: the predicted models *)

Section AfPass.
Import PyStr Seqs Spec.



Lemma af_step_structures st d l d' :
  get_structures (if (1 <? length l)%nat then with_structures st d l else st) d'
  = if String.eqb d' d
    then (if (1 <? length l)%nat then Some l else get_structures st d)
    else get_structures st d'.
Proof. apply pdb_step_structures. Qed.

Lemma has_structures_other st d l d' :
  d' <> d ->
  Af.has_structures (if (1 <? length l)%nat then with_structures st d l else st) d'
  = Af.has_structures st d'.
Proof.
  intros Hne. unfold Af.has_structures. rewrite af_step_structures.
  apply String.eqb_neq in Hne. rewrite Hne. reflexivity.
Qed.





End AfPass.

(** ** StructureReconciler: the predicted models, instances *)

Section AfInstances.
Import PyStr Seqs Spec.



(** A descriptor with pdb identifiers receives no predicted model, and none
    of its accessions is queried. *)
Lemma structures_bar_models :
  exists st',
    Af.from_uniprot Example.fetch_all Example.with_pdb = Ok (st', [])
    /\ get_structures st' "p1" = Some ["pdb"; "1ABC"].
Proof. eexists. split; vm_compute; reflexivity. Qed.

(** What the loop does after an answer of "not found": it leaves the
    accessions that follow unqueried. Here the second accession has a
    model, and the descriptor ends without it. *)
Lemma not_found_ends_search :
  exists st',
    Af.from_uniprot Example.fetch2 Example.with_acc = Ok (st', ["P12345"])
    /\ get_structures st' "p1" = None.
Proof. eexists. split; vm_compute; reflexivity. Qed.

End AfInstances.

(** * Further properties of the code *)

(** ** [strip] *)

Section Strip.
Import PyStr Spec.

Lemma last_ok_cons c s :
  s <> EmptyString -> last_ok (String c s) = last_ok s.
Proof. destruct s; [contradiction | reflexivity]. Qed.

Lemma rstrip_cons c s :
  rstrip (String c s)
  = match rstrip s with
    | EmptyString => if is_space c then EmptyString else String c EmptyString
    | String c' r => String c (String c' r)
    end.
Proof. reflexivity. Qed.

Lemma rstrip_fix s : last_ok s = true -> rstrip s = s.
Proof.
  induction s as [|c s IH]; [reflexivity|]. destruct s as [|c' s].
  - cbn. intros H. apply negb_true_iff in H. rewrite H. reflexivity.
  - intros H. rewrite last_ok_cons in H by discriminate.
    rewrite rstrip_cons, (IH H). reflexivity.
Qed.

Lemma last_ok_rstrip s : last_ok (rstrip s) = true.
Proof.
  induction s as [|c s IH]; [reflexivity|]. rewrite rstrip_cons.
  destruct (rstrip s) as [|c' r] eqn:E.
  - destruct (is_space c) eqn:Ec; [reflexivity|]. cbn. rewrite Ec. reflexivity.
  - rewrite last_ok_cons by discriminate. exact IH.
Qed.

Lemma lstrip_fix s : first_ok s = true -> lstrip s = s.
Proof.
  destruct s as [|c s]; [reflexivity|]. cbn. intros H.
  apply negb_true_iff in H. rewrite H. reflexivity.
Qed.

Lemma first_ok_lstrip s : first_ok (lstrip s) = true.
Proof.
  induction s as [|c s IH]; [reflexivity|]. cbn [lstrip].
  destruct (is_space c) eqn:E; [exact IH|]. cbn. rewrite E. reflexivity.
Qed.

Lemma last_ok_lstrip s : last_ok s = true -> last_ok (lstrip s) = true.
Proof.
  induction s as [|c s IH]; [reflexivity|]. intros H. cbn [lstrip].
  destruct (is_space c) eqn:E; [|exact H]. destruct s as [|c' s].
  - cbn in H. rewrite E in H. discriminate.
  - rewrite last_ok_cons in H by discriminate. auto.
Qed.

Lemma strip_ok s : first_ok (strip s) = true /\ last_ok (strip s) = true.
Proof.
  unfold strip. split; [apply first_ok_lstrip|].
  apply last_ok_lstrip, last_ok_rstrip.
Qed.

Lemma strip_fix s : first_ok s = true -> last_ok s = true -> strip s = s.
Proof.
  intros Hf Hl. unfold strip. rewrite (rstrip_fix s Hl). apply lstrip_fix, Hf.
Qed.

Lemma strip_idem s : strip (strip s) = strip s.
Proof. destruct (strip_ok s). apply strip_fix; assumption. Qed.

Lemma first_ok_app s t :
  s <> EmptyString -> first_ok (s +:+ t) = first_ok s.
Proof. destruct s; [contradiction | reflexivity]. Qed.

Lemma last_ok_app s t :
  t <> EmptyString -> last_ok (s +:+ t) = last_ok t.
Proof.
  intros Ht. induction s as [|c s IH]; [reflexivity|].
  rewrite append_cons, last_ok_cons; [exact IH|].
  destruct s; [exact Ht | discriminate].
Qed.

Lemma digit_not_space c : is_digit c = true -> is_space c = false.
Proof.
  destruct c as [[] [] [] [] [] [] [] []]; intros H;
    first [reflexivity | discriminate H].
Qed.

Lemma digits_last_ok t : all_digits t = true -> last_ok t = true.
Proof.
  induction t as [|c t IH]; [reflexivity|]. cbn [all_digits].
  intros [Hc Ht]%andb_true_iff. destruct t as [|c' t].
  - cbn. rewrite (digit_not_space c Hc). reflexivity.
  - rewrite last_ok_cons by discriminate. auto.
Qed.

Lemma numbered_tidy h n : first_ok h = true -> tidy (h +:+ "_" +:+ str n).
Proof.
  intros Hh. split; [|split].
  - destruct h; discriminate.
  - destruct h as [|c h]; [reflexivity | exact Hh].
  - rewrite last_ok_app by discriminate. rewrite last_ok_app by apply str_nonempty.
    apply digits_last_ok, str_digits.
Qed.

End Strip.

(** ** The registry: what every registry satisfies *)

Section RegistryInvariants.
Import PyStr Seqs Spec.

Lemma stem_first_ok d : first_ok d = true -> first_ok (fst (stem d)) = true.
Proof.
  intros Hd. unfold stem. destruct (rcut d) as [[h t]|] eqn:E; [|exact Hd].
  destruct (isdecimal t); [|exact Hd]. cbn [fst].
  destruct h as [|c h]; [reflexivity|].
  rewrite (rcut_join d _ t E) in Hd. exact Hd.
Qed.

Lemma bump_tidy d : tidy d -> tidy (bump d).
Proof.
  intros (_ & Hf & _). rewrite bump_stem. apply numbered_tidy, stem_first_ok, Hf.
Qed.

Lemma iter_bump_tidy k d : tidy d -> tidy (iter_bump k d).
Proof.
  revert d. induction k as [|k IH]; intros d Hd; [exact Hd|].
  cbn [iter_bump]. apply IH, bump_tidy, Hd.
Qed.

Lemma first_dscrptr_tidy st dscrptr : tidy (first_dscrptr st dscrptr).
Proof.
  unfold first_dscrptr. destruct (String.eqb (strip dscrptr) "") eqn:E.
  - apply (numbered_tidy "seq"). reflexivity.
  - apply String.eqb_neq in E. destruct (strip_ok dscrptr). split; auto.
Qed.

Lemma tidy_strip d : tidy d -> strip d = d.
Proof. intros (_ & Hf & Hl). apply strip_fix; assumption. Qed.

Lemma In_get {V} k (v : V) d :
  NoDup (Dict.keys d) -> (k, v) ∈ d -> Dict.get k d = Some v.
Proof.
  unfold Dict.keys. induction d as [|[k' v'] d IH]; cbn [map fst Dict.get].
  - intros _ H. apply elem_of_nil in H. contradiction.
  - rewrite NoDup_cons. intros [Hk Hnd] [E|Hin]%elem_of_cons.
    + injection E as -> ->. rewrite String.eqb_refl. reflexivity.
    + destruct (String.eqb k k') eqn:E; [|auto].
      apply String.eqb_eq in E. subst k'. exfalso. apply Hk.
      apply list_elem_of_fmap. exists (k, v). auto.
Qed.

Lemma reachable_tidy st : reachable st -> Forall tidy (dscrptrs st).
Proof.
  induction 1 as [|st d s c st' _ IH Hadd|st d a s v b st' _ IH Hadd
                  |st d l s v b st' _ IH Hadd].
  - constructor.
  - destruct (decide (normalize s ∈ seqs st)) as [H|H].
    { rewrite (add_seq_duplicate _ _ _ H) in Hadd. congruence. }
    destruct (_validate_seq (normalize s)) eqn:Hv.
    2:{ rewrite (add_seq_invalid _ _ _ H Hv) in Hadd. congruence. }
    destruct (add_seq_added st d s H Hv) as (k & _ & _ & Heq).
    rewrite Heq in Hadd. injection Hadd as <- <-.
    unfold dscrptrs, Dict.keys in *. cbn [_seqs]. rewrite map_app.
    apply Forall_app. split; [exact IH|]. cbn [map fst].
    constructor; [|constructor]. apply iter_bump_tidy, first_dscrptr_tidy.
  - apply add_accessions_seqs in Hadd as (H1 & _).
    unfold dscrptrs in *. rewrite H1. exact IH.
  - apply add_structures_seqs in Hadd as (H1 & _).
    unfold dscrptrs in *. rewrite H1. exact IH.
Qed.

(** X1. Whatever operations built the registry: its descriptors are
    pairwise different, none is empty and none starts or ends with a space
    character; the set returned by [seqs] holds exactly the sequences that
    [get_seq] returns for some descriptor, and has as many elements as the
    registry has entries; every stored sequence matches the alphabet
    pattern; and no descriptor has two lists of accessions. *)
Theorem registry_invariant (st : Seqs.t) :
  reachable st ->
  NoDup (dscrptrs st)
  /\ Forall (fun d => d <> EmptyString /\ strip d = d) (dscrptrs st)
  /\ (forall s, s ∈ seqs st <-> exists d, get_seq st d = Some s)
  /\ size (seqs st) = length (_seqs st)
  /\ (forall d s, get_seq st d = Some s -> _validate_seq s = true)
  /\ NoDup (Dict.keys (accessions st)).
Proof.
  intros Hreach. destruct (reachable_wf st Hreach) as [Hk Hv Hu Hok].
  split; [exact Hk|]. split.
  { eapply Forall_impl; [apply reachable_tidy, Hreach|].
    intros d Hd. split; [apply Hd | apply tidy_strip, Hd]. }
  split.
  { intros s. rewrite Hu. unfold Dict.values, get_seq. split.
    - intros ([d s'] & -> & Hin)%list_elem_of_fmap. exists d.
      apply In_get; assumption.
    - intros (d & Hd). apply list_elem_of_fmap. exists (d, s).
      split; [reflexivity | apply get_In, Hd]. }
  split.
  { rewrite <- (length_map snd (_seqs st)). fold (Dict.values (_seqs st)).
    rewrite <- (size_list_to_set (C := gset string) (Dict.values (_seqs st))) by exact Hv.
    f_equal. apply set_eq. intros s. rewrite elem_of_list_to_set. apply Hu. }
  split.
  { intros d s Hd. apply Hok. apply get_seq_value in Hd. exact Hd. }
  apply reachable_accessions, Hreach.
Qed.

(** The invariant at the registry that holds [ACD] under [p1] with two
    accessions and a structure. *)
Lemma registry_invariant_witness :
  reachable Example.with_pdb
  /\ NoDup (dscrptrs Example.with_pdb)
  /\ size (seqs Example.with_pdb) = 1%nat.
Proof.
  split; [exact with_pdb_reachable|].
  destruct (registry_invariant Example.with_pdb with_pdb_reachable)
    as (H1 & _ & _ & H4 & _).
  split; [exact H1 | exact H4].
Defined.

End RegistryInvariants.

(** ** The registry: the effect of [add_seq] *)

Section AddSeqEffect.
Import PyStr Seqs Spec.


Lemma get_none_keys {V} k (l : list (string * V)) :
  Dict.get k l = None <-> k ∉ Dict.keys l.
Proof.
  rewrite <- has_false_keys. unfold Dict.has.
  destruct (Dict.get k l); split; congruence.
Qed.


End AddSeqEffect.

(** ** The registry: what [_verify_dscrptr] returns, and [add_accessions] *)

Section VerifySound.
Import PyStr Seqs Spec.

Lemma first_match_sound st pattern s ks d :
  first_match st pattern s ks = Ok d ->
  d = EmptyString \/ (d ∈ ks /\ get_seq st d = Some s).
Proof.
  induction ks as [|k ks IH]; cbn [first_match].
  - intros [= <-]. left. reflexivity.
  - destruct (Re.matches pattern k) as [m| | |]; cbn [mbind result_bind];
      try discriminate.
    destruct (m && bool_decide (get_seq st k = Some s)) eqn:E.
    + intros [= <-]. right. apply andb_true_iff in E as [_ E].
      apply bool_decide_eq_true in E. split; [left | exact E].
    + intros H. destruct (IH H) as [->|[Hin Hget]]; [left; reflexivity|].
      right. split; [right; exact Hin | exact Hget].
Qed.

(** X3. Whatever the candidate and whatever the pattern it yields: when
    [_verify_dscrptr] returns, it returns the empty string or a descriptor
    of the registry whose stored sequence is the normalized input. On a
    registry without entries it returns the empty string. *)
Theorem verify_dscrptr_sound (st : Seqs.t) (d s found : string) :
  _verify_dscrptr st d s = Ok found ->
  (found = EmptyString
   \/ (found ∈ dscrptrs st /\ get_seq st found = Some (normalize s)))
  /\ (dscrptrs st = [] -> found = EmptyString).
Proof.
  unfold _verify_dscrptr. fold (normalize s). intros H. split.
  - apply first_match_sound in H. exact H.
  - intros E. rewrite E in H. cbn in H. congruence.
Qed.

(** The theorem at the registry that holds [ACD] under [p1] and a
    candidate with a number added. *)
Lemma verify_dscrptr_sound_witness :
  _verify_dscrptr Example.one_seq "p1_7" " acd" = Ok "p1"
  /\ get_seq Example.one_seq "p1" = Some "ACD".
Proof.
  assert (H : _verify_dscrptr Example.one_seq "p1_7" " acd" = Ok "p1")
    by (vm_compute; reflexivity).
  split; [exact H|].
  destruct (verify_dscrptr_sound _ _ _ _ H) as [[E|[_ Hget]] _];
    [discriminate E | exact Hget].
Defined.

(** X4. [add_accessions] returns [False], and leaves the registry as it is,
    when verification is asked for and resolves to nothing. Once the
    descriptor is resolved (or verification is skipped) it returns [True];
    an empty list leaves the registry as it is, and any other list takes
    the place of the list stored for the descriptor, without merging, and
    touches no other descriptor, no sequence and no structure. *)
Theorem add_accessions_effect (st : Seqs.t) (dscrptr seq : string)
    (accs : list string) :
  (_verify_dscrptr st dscrptr seq = Ok EmptyString ->
   add_accessions st dscrptr accs seq true = Ok (false, st))
  /\ (forall verify d,
         resolves st dscrptr seq verify d ->
         (accs = [] -> add_accessions st dscrptr accs seq verify = Ok (true, st))
         /\ (accs <> [] ->
             add_accessions st dscrptr accs seq verify
             = Ok (true, with_accessions st d accs)
             /\ Dict.get d (accessions (with_accessions st d accs)) = Some accs
             /\ (forall d', d' <> d ->
                   Dict.get d' (accessions (with_accessions st d accs))
                   = Dict.get d' (accessions st)))).
Proof.
  split.
  - intros H. unfold add_accessions. rewrite H. reflexivity.
  - intros verify d Hres. unfold add_accessions.
    destruct (resolves_bind st dscrptr seq verify d
                (fun dscrptr0 =>
                   if verify && String.eqb dscrptr0 "" then Ok (false, st)
                   else if (0 <? length accs)%nat
                        then Ok (true, Make (_seqs st) (_useqs st) (_structures st)
                                         (Dict.set dscrptr0 accs (_accessions st)))
                        else Ok (true, st)) Hres) as [-> ->].
    split.
    + intros ->. reflexivity.
    + intros Hne. destruct accs as [|a accs]; [contradiction|]. cbn [length Nat.ltb Nat.leb].
      split; [reflexivity|]. unfold accessions, with_accessions. cbn [_accessions].
      split; [apply get_set_eq | intros d' Hd'; apply get_set_ne; congruence].
Qed.

(** The theorem at the registry that holds [ACD] under [p1]: a first list of
    accessions, then a second one in its place. *)
Lemma add_accessions_effect_witness :
  add_accessions Example.with_acc "p1" ["A0A000"] "acd" true
  = Ok (true, with_accessions Example.with_acc "p1" ["A0A000"])
  /\ Dict.get "p1" (accessions (with_accessions Example.with_acc "p1" ["A0A000"]))
     = Some ["A0A000"].
Proof.
  destruct (add_accessions_effect Example.with_acc "p1" "acd" ["A0A000"]) as [_ H].
  destruct (H true "p1") as [_ H2].
  - split; [vm_compute; reflexivity | discriminate].
  - destruct H2 as (H3 & H4 & _); [discriminate|]. split; assumption.
Defined.

End VerifySound.

(** ** bl.py: the hits of one query *)

Section HitsLoop.
Import PyStr Bl Spec.

Lemma first_new_fresh accs ds d :
  first_new accs ds = Some d -> accession d ∉ accs.
Proof.
  unfold first_new. intros H. apply find_some in H as [_ H].
  apply andb_true_iff in H as [_ H]. apply negb_true_iff in H.
  intros Hin. apply mem_elem in Hin. congruence.
Qed.

(** What one matching hit does to the two lists: both grow at the end, the
    accessions by one element at most, and neither gains a repetition. *)
Lemma acc_pdb_from_hit_lists h pdbs accs :
  exists p a,
    _acc_pdb_from_hit h pdbs accs = (pdbs ++ p, accs ++ a)
    /\ (length a <= 1)%nat
    /\ (NoDup pdbs -> NoDup (pdbs ++ p))
    /\ (NoDup accs -> NoDup (accs ++ a)).
Proof.
  unfold _acc_pdb_from_hit. rewrite acc_pdb_loop_spec.
  destruct (fold_add_new_prefix (pdb_bases (description h)) pdbs) as [p Hp].
  exists p.
  exists (match first_new accs (description h) with
          | Some d => [accession d]
          | None => []
          end).
  split; [|split; [|split]].
  - rewrite Hp. destruct (first_new accs (description h));
      [reflexivity | rewrite app_nil_r; reflexivity].
  - destruct (first_new accs (description h)); cbn; lia.
  - intros H. rewrite <- Hp. apply fold_add_new_nodup, H.
  - intros H. destruct (first_new accs (description h)) as [d|] eqn:E.
    + apply NoDup_app. split; [exact H|]. split; [|apply NoDup_singleton].
      intros x Hx Hd. apply list_elem_of_singleton in Hd. subst x.
      exact (first_new_fresh _ _ _ E Hx).
    + rewrite app_nil_r. exact H.
Qed.

Lemma checkhit_ok h q_len :
  hsps h <> [] -> exists b, _checkhit h q_len = Ok b.
Proof.
  unfold _checkhit. destruct (hsps h) as [|x rest]; [contradiction|].
  intros _. repeat break_if; eauto.
Qed.

Lemma hits_loop_lists hs q_len :
  Forall (fun h => hsps h <> []) hs ->
  forall pdbs accs,
  exists p a,
    hits_loop hs q_len pdbs accs = Ok (pdbs ++ p, accs ++ a)
    /\ (length a <= length hs)%nat
    /\ (NoDup pdbs -> NoDup (pdbs ++ p))
    /\ (NoDup accs -> NoDup (accs ++ a)).
Proof.
  induction 1 as [|h hs Hh _ IH]; intros pdbs accs.
  - exists [], []. rewrite !app_nil_r. cbn. repeat split; auto.
  - cbn [hits_loop]. destruct (checkhit_ok h q_len Hh) as [b ->].
    cbn [mbind result_bind]. destruct b.
    + destruct (acc_pdb_from_hit_lists h pdbs accs) as (p1 & a1 & -> & Hl1 & Hp1 & Ha1).
      cbn [fst snd].
      destruct (IH (pdbs ++ p1) (accs ++ a1)) as (p2 & a2 & -> & Hl2 & Hp2 & Ha2).
      exists (p1 ++ p2), (a1 ++ a2). rewrite !app_assoc.
      split; [reflexivity|]. split; [rewrite length_app; cbn [length]; lia|].
      split; auto.
    + destruct (IH pdbs accs) as (p2 & a2 & -> & Hl2 & Hp2 & Ha2).
      exists p2, a2. split; [reflexivity|]. split; [cbn [length]; lia|].
      split; auto.
Qed.

Lemma hits_loop_ok hs q_len pdbs accs r :
  hits_loop hs q_len pdbs accs = Ok r -> Forall (fun h => hsps h <> []) hs.
Proof.
  revert pdbs accs. induction hs as [|h hs IH]; intros pdbs accs; [constructor|].
  cbn [hits_loop]. unfold _checkhit at 1. destruct (hsps h) as [|x rest] eqn:E.
  - discriminate.
  - intros H. constructor; [congruence|]. revert H.
    repeat break_if; cbn [mbind result_bind]; apply IH.
Qed.

(** X5. The loop of [process] over the hits of a query raises [IndexError]
    when some hit has an empty list of alignments, and otherwise returns: the
    two lists it started from, each with new elements at the end, at most
    one accession for each hit, and no repetition that was not there
    before. Hits that do not match leave both lists as they are. *)
Theorem hits_loop_result (hs : list hit) (q_len : Z) (pdbs accs : list string) :
  (Exists (fun h => hsps h = []) hs ->
   hits_loop hs q_len pdbs accs = Raise IndexError)
  /\ (Forall (fun h => hsps h <> []) hs ->
      exists p a,
        hits_loop hs q_len pdbs accs = Ok (pdbs ++ p, accs ++ a)
        /\ (length a <= length hs)%nat
        /\ (NoDup pdbs -> NoDup (pdbs ++ p))
        /\ (NoDup accs -> NoDup (accs ++ a)))
  /\ (Forall (fun h => _checkhit h q_len = Ok false) hs ->
      hits_loop hs q_len pdbs accs = Ok (pdbs, accs)).
Proof.
  split; [|split].
  - intros H. revert pdbs accs.
    induction H as [h hs Hh|h hs _ IH]; intros pdbs accs; cbn [hits_loop].
    + unfold _checkhit. rewrite Hh. reflexivity.
    + unfold _checkhit at 1. destruct (hsps h) as [|x rest]; [reflexivity|].
      repeat break_if; cbn [mbind result_bind]; apply IH.
  - intros H. apply hits_loop_lists, H.
  - intros H. revert pdbs accs.
    induction H as [|h hs Hh _ IH]; intros pdbs accs; [reflexivity|].
    cbn [hits_loop]. rewrite Hh. cbn [mbind result_bind]. apply IH.
Qed.

End HitsLoop.

(** ** bl.py: [process] *)

Section ProcessPass.
Import PyStr Seqs Bl Spec.

Lemma verified_stored st d s d' :
  _verify_dscrptr st d s = Ok d' -> d' <> EmptyString -> d' ∈ dscrptrs st.
Proof.
  unfold _verify_dscrptr. intros H Hne.
  apply first_match_sound in H as [->|[H _]]; [contradiction | exact H].
Qed.

Lemma grown_refl convert st : grown convert st st.
Proof. split; auto. Qed.

Lemma grown_trans convert st1 st2 st3 :
  grown convert st1 st2 -> grown convert st2 st3 -> grown convert st1 st3.
Proof.
  intros [Hs1 Hu1 Ha1 Ht1] [Hs2 Hu2 Ha2 Ht2].
  assert (Hd : dscrptrs st2 = dscrptrs st1) by (unfold dscrptrs; congruence).
  split; [congruence | congruence | |].
  - intros d l H. destruct (Ha2 d l H) as [H'|H']; [auto|].
    right. rewrite <- Hd. exact H'.
  - intros d l H. destruct (Ht2 d l H) as [H'|H']; [auto|].
    right. rewrite <- Hd. exact H'.
Qed.

Lemma grown_add_accessions convert st d a accs s b st' :
  (if (0 <? length a)%nat then convert a else Ok a) = Ok accs ->
  add_accessions st d accs s true = Ok (b, st') ->
  grown convert st st'.
Proof.
  intros Hc. unfold add_accessions.
  destruct (_verify_dscrptr st d s) as [d'| | |] eqn:Ev;
    cbn [mbind result_bind andb]; try discriminate.
  destruct (String.eqb d' "") eqn:Ed; [intros [= <- <-]; apply grown_refl|].
  destruct (0 <? length accs)%nat eqn:El; [|intros [= <- <-]; apply grown_refl].
  intros [= <- <-]. apply String.eqb_neq in Ed.
  split; [reflexivity | reflexivity | | auto].
  intros k l. unfold accessions. cbn [_accessions].
  destruct (String.eqb_spec k d') as [->|Hk].
  - rewrite get_set_eq. intros [= <-]. right.
    split; [eapply verified_stored; eassumption|].
    assert (Hne : accs <> []) by (intros ->; discriminate El).
    split; [exact Hne|]. exists a.
    destruct (0 <? length a)%nat eqn:Ea; [|congruence].
    split; [intros ->; discriminate Ea | exact Hc].
  - rewrite get_set_ne by congruence. auto.
Qed.

Lemma grown_add_structures convert st d p s b st' :
  NoDup ("pdb" :: p) ->
  add_structures st d ("pdb" :: p) s true = Ok (b, st') ->
  grown convert st st'.
Proof.
  intros Hnd. unfold add_structures.
  destruct (_verify_dscrptr st d s) as [d'| | |] eqn:Ev;
    cbn [mbind result_bind andb]; try discriminate.
  destruct (String.eqb d' "") eqn:Ed; [intros [= <- <-]; apply grown_refl|].
  change (mem "pdb" valid) with true. cbn [negb].
  destruct (1 <? length ("pdb" :: p))%nat eqn:El;
    [|intros [= <- <-]; apply grown_refl].
  intros [= <- <-]. apply String.eqb_neq in Ed.
  split; [reflexivity | reflexivity | auto |].
  intros k l. unfold get_structures. cbn [_structures].
  destruct (decide (k = d')) as [->|Hk].
  - rewrite lookup_insert_eq. intros [= <-]. right.
    split; [eapply verified_stored; eassumption|].
    split; [exact Hnd|]. exists p. split; [reflexivity|].
    intros ->. discriminate El.
  - rewrite lookup_insert_ne by congruence. auto.
Qed.

Lemma process_loop_grown convert reports :
  forall st c c' st',
    process_loop convert reports st c = Ok (c', st') ->
    grown convert st st'
    /\ c <= c' <= c + Z.of_nat (length reports)
    /\ (reachable st -> reachable st').
Proof.
  induction reports as [|r reports IH]; intros st c c' st'; cbn [process_loop].
  - intros [= <- <-]. split; [apply grown_refl|]. cbn [length]. split; [lia | auto].
  - destruct (query_title r) as [d|]; [|discriminate].
    destruct (query_seq r) as [s|]; [|discriminate].
    destruct (negb _) eqn:Em.
    { intros H. apply IH in H as (Hg & Hc & Hr).
      split; [exact Hg|]. split; [cbn [length]; lia | exact Hr]. }
    destruct s as [s|]; [|discriminate Em].
    change (default EmptyString (Some s)) with s.
    destruct (query_len r) as [q_len|]; [|discriminate].
    destruct (hits r) as [hs|]; [|discriminate].
    destruct (hits_loop hs q_len ["pdb"] []) as [[p a]| | |] eqn:Eh;
      cbn [mbind result_bind fst snd]; try discriminate.
    destruct (if (0 <? length a)%nat then convert a else Ok a)
      as [accs| | |] eqn:Ec; cbn [mbind result_bind]; try discriminate.
    destruct (add_accessions st d accs s true) as [[b st1]| | |] eqn:Ea;
      cbn [mbind result_bind fst snd]; try discriminate.
    pose proof (grown_add_accessions convert _ _ _ _ _ _ _ Ec Ea) as Hg1.
    assert (Hr1 : reachable st -> reachable st1).
    { intros Hr. eapply reach_add_accessions; eassumption. }
    destruct b; cbn [negb].
    + destruct (add_structures st1 d p s true) as [[b2 st2]| | |] eqn:Es;
        cbn [mbind result_bind fst snd]; try discriminate.
      destruct (hits_loop_lists hs q_len (hits_loop_ok _ _ _ _ _ Eh) ["pdb"] [])
        as (p' & a' & Eh' & _ & Hnd & _).
      rewrite Eh in Eh'. injection Eh' as -> ->.
      pose proof (grown_add_structures convert _ _ _ _ _ _
                    (Hnd (NoDup_singleton _)) Es) as Hg2.
      intros H. apply IH in H as (Hg & Hc & Hr).
      split; [eapply grown_trans; [exact Hg1|]; eapply grown_trans; eassumption|].
      split; [cbn [length]; lia|].
      intros Hst. apply Hr. eapply reach_add_structures; [|exact Es]. auto.
    + intros H. apply IH in H as (Hg & Hc & Hr).
      split; [eapply grown_trans; eassumption|].
      split; [cbn [length]; lia | auto].
Qed.

(** X6. When [process] returns, the entries of the registry, and so its
    descriptors and its set of sequences, are as before; the number returned
    lies between 0 and the number of reports; every list of accessions that
    is new or changed is a list [_convert_to_uniprot] returned, is not empty,
    and stands under a descriptor of the registry; every list of structures
    that is new or changed is tagged [pdb], has at least one identifier and
    none twice, and stands under a descriptor of the registry. *)
Theorem process_frame (convert : list string -> result (list string))
    (reports : list report) (st : Seqs.t) (c : Z) (st' : Seqs.t) :
  process convert reports st = Ok (c, st') ->
  _seqs st' = _seqs st
  /\ seqs st' = seqs st
  /\ 0 <= c <= Z.of_nat (length reports)
  /\ (reachable st -> reachable st')
  /\ (forall d l,
        Dict.get d (accessions st') = Some l ->
        Dict.get d (accessions st) = Some l
        \/ (d ∈ dscrptrs st /\ l <> [] /\ exists a, a <> [] /\ convert a = Ok l))
  /\ (forall d l,
        get_structures st' d = Some l ->
        get_structures st d = Some l
        \/ (d ∈ dscrptrs st /\ NoDup l
            /\ exists rest, l = "pdb" :: rest /\ rest <> [])).
Proof.
  unfold process. intros H.
  apply process_loop_grown in H as ([Hs Hu Ha Ht] & Hc & Hr).
  split; [exact Hs|]. split; [exact Hu|]. split; [lia|]. auto.
Qed.

(** The theorem at the registry with one sequence of length 10 and the
    report of its search: the accessions are those the conversion answers,
    and the structure is the one the first hit names. *)
Lemma process_frame_witness :
  exists st',
    process Example.convert1 [Example.report_ten] Example.ten = Ok (0, st')
    /\ _seqs st' = _seqs Example.ten
    /\ Dict.get "q1" (accessions st') = Some ["P12345"]
    /\ get_structures st' "q1" = Some ["pdb"; "1ABC"].
Proof.
  assert (E : process Example.convert1 [Example.report_ten] Example.ten
              = Ok (0, Example.stored
                         (add_structures
                            (Example.stored
                               (add_accessions Example.ten "q1" ["P12345"]
                                  "ACDEFGHIKL" true))
                            "q1" ["pdb"; "1ABC"] "ACDEFGHIKL" true)))
    by (vm_compute; reflexivity).
  eexists. split; [exact E|].
  destruct (process_frame _ _ _ _ _ E) as (H1 & _).
  split; [exact H1|]. split; vm_compute; reflexivity.
Defined.

Lemma process_loop_skips convert reports :
  forall st c,
    Forall (skipped st) reports ->
    process_loop convert reports st c = Ok (c + Z.of_nat (length reports), st).
Proof.
  induction reports as [|r reports IH]; intros st c H.
  - cbn. f_equal. f_equal. lia.
  - apply Forall_cons in H as [(d & s & Hd & Hs & Hout) H].
    cbn [process_loop]. rewrite Hd, Hs.
    replace (negb _) with true.
    + rewrite (IH _ _ H). f_equal. f_equal. cbn [length]. lia.
    + symmetry. apply negb_true_iff. destruct s as [s|]; [|reflexivity].
      apply bool_decide_eq_false_2. apply Hout. reflexivity.
Qed.

(** X7. [process] tests the sequence of a report as it stands against the
    stored sequences, which are in normal form. When every report has its
    title and a sequence that is [null] or fails that test, [process] counts
    them all, converts nothing and leaves the registry as it is, whatever
    else the reports hold. *)
Theorem process_skips (convert : list string -> result (list string))
    (reports : list report) (st : Seqs.t) :
  Forall (skipped st) reports ->
  process convert reports st = Ok (Z.of_nat (length reports), st).
Proof.
  intros H. unfold process. rewrite (process_loop_skips convert reports st 0 H).
  reflexivity.
Qed.

(** The theorem at the registry with one sequence of length 10 and two
    reports: one gives that sequence in lower case, the other none. *)
Lemma process_skips_witness :
  get_seq Example.ten "q1" = Some "ACDEFGHIKL"
  /\ process Example.convert1 [Example.report_lower; Example.report_null] Example.ten
     = Ok (2, Example.ten).
Proof.
  split; [vm_compute; reflexivity|].
  apply (process_skips Example.convert1 [Example.report_lower; Example.report_null]).
  constructor; [|constructor; [|constructor]].
  - exists "q1", (Some "acdefghikl"). split; [reflexivity|]. split; [reflexivity|].
    intros s' [= <-]. vm_compute. intros Hin. discriminate Hin.
  - exists "q2", None. split; [reflexivity|]. split; [reflexivity|].
    intros s' [=].
Defined.

End ProcessPass.

(** ** bl.py: [extractseq] *)

Section ExtractSeq.
Import PyStr Seqs Bl Spec.



End ExtractSeq.

(** ** bl.py: the accessions [_convert_to_uniprot] collects *)

Section Collect.
Import PyStr Bl Spec.

Lemma collect_entry_spec accs entry :
  (NoDup accs -> NoDup (collect_entry accs entry))
  /\ forall a, a ∈ collect_entry accs entry <-> a ∈ accs \/ entry = Some a.
Proof.
  destruct entry as [x|]; cbn [collect_entry].
  - fold (add_new accs x).
    change (if negb (mem x accs) then accs ++ [x] else accs) with
      (if negb (mem x accs) then accs ++ [x] else accs).
    assert (E : (if negb (mem x accs) then accs ++ [x] else accs) = add_new accs x).
    { unfold add_new. destruct (mem x accs); reflexivity. }
    rewrite E. split; [apply add_new_nodup|].
    intros a. rewrite add_new_elem. split; (intros [H|H]; [auto|right; congruence]).
  - split; [auto|]. intros a. split; [auto|]. intros [H|H]; [exact H | discriminate H].
Qed.

Lemma collect_result_spec result :
  forall accs,
    (NoDup accs -> NoDup (fold_left collect_entry result accs))
    /\ forall a, a ∈ fold_left collect_entry result accs
                 <-> a ∈ accs \/ Some a ∈ result.
Proof.
  induction result as [|e result IH]; intros accs; cbn [fold_left].
  - split; [auto|]. intros a. rewrite elem_of_nil. tauto.
  - destruct (collect_entry_spec accs e) as [Hnd Hin].
    destruct (IH (collect_entry accs e)) as [Hnd' Hin'].
    split; [auto|]. intros a. rewrite Hin', Hin, elem_of_cons.
    split; [intros [[H|H]|H]; auto | intros [H|[H|H]]; auto].
Qed.

(** X9. The list of accessions [_convert_to_uniprot] collects from the
    results of its jobs has no accession twice, and holds exactly the
    primary accessions of the entries that have one: entries without one are
    passed over. *)
Theorem collect_spec (results : list (list (option string))) :
  NoDup (collect results)
  /\ forall a,
       a ∈ collect results
       <-> exists result, result ∈ results /\ Some a ∈ result.
Proof.
  unfold collect.
  assert (H : forall accs,
             (NoDup accs ->
              NoDup (fold_left (fun accessions result =>
                                  fold_left collect_entry result accessions)
                               results accs))
             /\ forall a,
                  a ∈ fold_left (fun accessions result =>
                                   fold_left collect_entry result accessions)
                                results accs
                  <-> a ∈ accs \/ exists result, result ∈ results /\ Some a ∈ result).
  { induction results as [|res results IH]; intros accs; cbn [fold_left].
    - split; [auto|]. intros a. split; [auto|].
      intros [H|(res & H & _)]; [exact H|]. apply elem_of_nil in H. contradiction.
    - destruct (collect_result_spec res accs) as [Hnd Hin].
      destruct (IH (fold_left collect_entry res accs)) as [Hnd' Hin'].
      split; [auto|]. intros a. rewrite Hin', Hin. split.
      + intros [[H|H]|(r & Hr & H)]; [auto| |].
        * right. exists res. split; [left | exact H].
        * right. exists r. split; [right; exact Hr | exact H].
      + intros [H|(r & Hr & H)]; [auto|].
        apply elem_of_cons in Hr as [->|Hr]; [auto|]. right. eauto. }
  destruct (H []) as [Hnd Hin]. split; [apply Hnd, NoDup_nil_2|].
  intros a. rewrite Hin, elem_of_nil. tauto.
Qed.

End Collect.

(** ** pd.py and af.py: how the two passes end *)

Section PassOutcome.
Import PyStr Seqs Spec.

Lemma pd_accession_loop_outcome search accs :
  forall pdbs asked,
    match Pd.accession_loop search accs pdbs asked with
    | Ok (p, asked') =>
        (exists extra, p = pdbs ++ extra)
        /\ exists new,
             asked' = new ++ asked
             /\ Forall (fun a => a ∈ accs /\ pd_failure (search a) = None) new
    | Exit msg => exists a, a ∈ accs /\ pd_failure (search a) = Some msg
    | _ => False
    end.
Proof.
  induction accs as [|a accs IH]; intros pdbs asked; cbn [Pd.accession_loop].
  - split; [exists []; rewrite app_nil_r; reflexivity|]. exists []. split; [reflexivity|constructor].
  - destruct (search a) as [| | | |ids] eqn:Ea.
    + exists a. rewrite Ea. split; [left | reflexivity].
    + split; [exists []; rewrite app_nil_r; reflexivity|]. exists [a].
      split; [reflexivity|]. constructor; [|constructor]. rewrite Ea. split; [left | reflexivity].
    + exists a. rewrite Ea. split; [left | reflexivity].
    + exists a. rewrite Ea. split; [left | reflexivity].
    + specialize (IH (fold_left Pd.add_unique ids pdbs) (a :: asked)).
      destruct (Pd.accession_loop search accs _ _) as [[p asked']|e|msg|]; [|exact IH| |exact IH].
      * destruct IH as [[extra ->] (new & -> & Hnew)]. split.
        -- rewrite fold_add_unique.
           destruct (fold_add_new_prefix (map base ids) pdbs) as [extra' ->].
           exists (extra' ++ extra). rewrite app_assoc. reflexivity.
        -- exists (new ++ [a]). rewrite <- app_assoc. split; [reflexivity|].
           apply Forall_app. split.
           ++ eapply Forall_impl; [exact Hnew|]. intros x [Hx Hf].
              split; [right; exact Hx | exact Hf].
           ++ constructor; [|constructor]. rewrite Ea. split; [left | reflexivity].
      * destruct IH as (x & Hx & Hf). exists x. split; [right; exact Hx | exact Hf].
Qed.

Lemma restructured_refl tag at_ st : restructured tag at_ st st.
Proof. split; auto. Qed.

Lemma restructured_store tag (at_ : string -> Prop) st d rest :
  mem tag valid = true -> at_ d ->
  exists st',
    add_structures st d (tag :: rest) EmptyString false = Ok (true, st')
    /\ st' = (if (1 <? length (tag :: rest))%nat
              then with_structures st d (tag :: rest) else st)
    /\ restructured tag at_ st st'.
Proof.
  intros Htag Hat. eexists. split; [apply add_structures_unverified, Htag|].
  split; [reflexivity|].
  split.
  - destruct (1 <? _)%nat; reflexivity.
  - destruct (1 <? _)%nat; reflexivity.
  - destruct (1 <? _)%nat; reflexivity.
  - intros Hr. eapply reach_add_structures; [exact Hr|].
    apply add_structures_unverified, Htag.
  - intros k l. rewrite pdb_step_structures.
    destruct (String.eqb_spec k d) as [->|Hk]; [|auto].
    destruct (1 <? length (tag :: rest))%nat eqn:El; [|auto].
    intros [= <-]. right. split; [exact Hat|]. exists rest. split; [reflexivity|].
    intros ->. discriminate El.
Qed.

Lemma restructured_trans tag (at1 at2 at3 : string -> Prop) st1 st2 st3 :
  (forall d, at1 d -> at3 d) -> (forall d, at2 d -> at3 d) ->
  restructured tag at1 st1 st2 -> restructured tag at2 st2 st3 ->
  restructured tag at3 st1 st3.
Proof.
  intros H1 H2 [Hs1 Hu1 Ha1 Hr1 Ht1] [Hs2 Hu2 Ha2 Hr2 Ht2].
  split; [congruence | congruence | congruence | auto |].
  intros d l H. destruct (Ht2 d l H) as [H'|[Hat H']]; [|right; auto].
  destruct (Ht1 d l H') as [H''|[Hat H'']]; [left; exact H'' | right; auto].
Qed.

Lemma pd_descriptor_loop_outcome search items :
  forall st asked,
    match Pd.descriptor_loop search items st asked with
    | Ok (st', asked') =>
        restructured "pdb" (fun d => d ∈ Dict.keys items) st st'
        /\ exists new,
             asked' = new ++ asked
             /\ Forall (fun a => a ∈ all_accessions items
                                 /\ pd_failure (search a) = None) new
    | Exit msg =>
        exists a, a ∈ all_accessions items /\ pd_failure (search a) = Some msg
    | _ => False
    end.
Proof.
  induction items as [|[d accs] items IH]; intros st asked; cbn [Pd.descriptor_loop].
  - split; [apply restructured_refl|]. exists []. split; [reflexivity | constructor].
  - pose proof (pd_accession_loop_outcome search accs (Pd.known st d) asked) as Hacc.
    unfold all_accessions. cbn [map snd concat]. fold (all_accessions items).
    destruct (Pd.accession_loop search accs _ _) as [[p asked1]|e|msg|];
      cbn [mbind result_bind fst snd]; [| exact Hacc | | exact Hacc].
    2:{ destruct Hacc as (a & Ha & Hf). exists a. rewrite elem_of_app. auto. }
    destruct Hacc as [[extra ->] (new1 & -> & Hnew1)].
    destruct (known_head st d) as [rest ->]. cbn [app].
    destruct (restructured_store "pdb" (fun k => k ∈ Dict.keys ((d, accs) :: items))
                st d (rest ++ extra) eq_refl) as (st1 & -> & _ & Hrs1);
      [left|].
    cbn [mbind result_bind fst snd].
    specialize (IH st1 (new1 ++ asked)).
    destruct (Pd.descriptor_loop search items st1 _) as [[st' asked']|e|msg|];
      [| exact IH | | exact IH].
    + destruct IH as [Hrs (new & -> & Hnew)]. split.
      * eapply restructured_trans; [| |exact Hrs1|exact Hrs]; cbn beta.
        -- auto.
        -- intros k Hk. right. exact Hk.
      * exists (new ++ new1). rewrite <- app_assoc. split; [reflexivity|].
        apply Forall_app. split; (eapply Forall_impl; [eassumption|]);
          intros x [Hx Hf]; (split; [|exact Hf]); rewrite elem_of_app; auto.
    + destruct IH as (a & Ha & Hf). exists a. rewrite elem_of_app. auto.
Qed.


Lemma af_accession_loop_outcome fetch accs :
  forall structures asked,
    match Af.accession_loop fetch accs structures asked with
    | Ok (p, asked') =>
        (exists extra, p = structures ++ extra)
        /\ exists new,
             asked' = new ++ asked
             /\ Forall (fun a => a ∈ accs /\ af_failure (fetch a) = None) new
    | Exit msg => exists a, a ∈ accs /\ af_failure (fetch a) = Some msg
    | _ => False
    end.
Proof.
  induction accs as [|a accs IH]; intros structures asked; cbn [Af.accession_loop].
  - split; [exists []; rewrite app_nil_r; reflexivity|]. exists [].
    split; [reflexivity|constructor].
  - destruct (fetch a) as [| | |url] eqn:Ea.
    + exists a. rewrite Ea. split; [left | reflexivity].
    + split; [exists []; rewrite app_nil_r; reflexivity|]. exists [a].
      split; [reflexivity|]. constructor; [|constructor]. rewrite Ea.
      split; [left | reflexivity].
    + exists a. rewrite Ea. split; [left | reflexivity].
    + specialize (IH (structures ++ [url]) (a :: asked)).
      destruct (Af.accession_loop fetch accs _ _) as [[p asked']|e|msg|];
        [|exact IH| |exact IH].
      * destruct IH as [[extra ->] (new & -> & Hnew)]. split.
        -- exists ([url] ++ extra). rewrite app_assoc. reflexivity.
        -- exists (new ++ [a]). rewrite <- app_assoc. split; [reflexivity|].
           apply Forall_app. split.
           ++ eapply Forall_impl; [exact Hnew|]. intros x [Hx Hf].
              split; [right; exact Hx | exact Hf].
           ++ constructor; [|constructor]. rewrite Ea. split; [left | reflexivity].
      * destruct IH as (x & Hx & Hf). exists x. split; [right; exact Hx | exact Hf].
Qed.

Lemma af_descriptor_loop_outcome fetch items :
  forall st asked,
    match Af.descriptor_loop fetch items st asked with
    | Ok (st', asked') =>
        restructured "EBI-AF"
          (fun d => d ∈ Dict.keys items /\ Af.has_structures st d = false) st st'
        /\ exists new,
             asked' = new ++ asked
             /\ Forall (fun a => a ∈ all_accessions items
                                 /\ af_failure (fetch a) = None) new
    | Exit msg =>
        exists a, a ∈ all_accessions items /\ af_failure (fetch a) = Some msg
    | _ => False
    end.
Proof.
  induction items as [|[d accs] items IH]; intros st asked; cbn [Af.descriptor_loop].
  - split; [apply restructured_refl|]. exists []. split; [reflexivity | constructor].
  - unfold all_accessions. cbn [map snd concat]. fold (all_accessions items).
    destruct (Af.has_structures st d) eqn:Eh.
    { specialize (IH st asked).
      destruct (Af.descriptor_loop fetch items st asked) as [[st' asked']|e|msg|];
        [| exact IH | | exact IH].
      - destruct IH as [Hrs (new & -> & Hnew)]. split.
        + eapply restructured_trans; [| |apply restructured_refl|exact Hrs];
            cbn beta; [intros k Hk; exact Hk|].
          intros k [Hk Hf]. split; [right; exact Hk | exact Hf].
        + exists new. split; [reflexivity|].
          eapply Forall_impl; [exact Hnew|]. intros x [Hx Hf].
          split; [rewrite elem_of_app; auto | exact Hf].
      - destruct IH as (a & Ha & Hf). exists a. rewrite elem_of_app. auto. }
    pose proof (af_accession_loop_outcome fetch accs ["EBI-AF"] asked) as Hacc.
    destruct (Af.accession_loop fetch accs _ _) as [[p asked1]|e|msg|];
      cbn [mbind result_bind fst snd]; [| exact Hacc | | exact Hacc].
    2:{ destruct Hacc as (a & Ha & Hf). exists a. rewrite elem_of_app. auto. }
    destruct Hacc as [[extra ->] (new1 & -> & Hnew1)]. cbn [app].
    destruct (restructured_store "EBI-AF"
                (fun k => k ∈ Dict.keys ((d, accs) :: items)
                          /\ Af.has_structures st k = false)
                st d extra eq_refl) as (st1 & -> & Est1 & Hrs1);
      [split; [left | exact Eh]|].
    cbn [mbind result_bind fst snd].
    specialize (IH st1 (new1 ++ asked)).
    destruct (Af.descriptor_loop fetch items st1 _) as [[st' asked']|e|msg|];
      [| exact IH | | exact IH].
    + destruct IH as [Hrs (new & -> & Hnew)]. split.
      * eapply restructured_trans; [| |exact Hrs1|exact Hrs]; cbn beta; [auto|].
        intros k [Hk Hf]. split; [right; exact Hk|].
        destruct (String.eqb_spec k d) as [->|Hne].
        -- exact Eh.
        -- rewrite Est1, has_structures_other in Hf by exact Hne. exact Hf.
      * exists (new ++ new1). rewrite <- app_assoc. split; [reflexivity|].
        apply Forall_app. split; (eapply Forall_impl; [eassumption|]);
          intros x [Hx Hf]; (split; [|exact Hf]); rewrite elem_of_app; auto.
    + destruct IH as (a & Ha & Hf). exists a. rewrite elem_of_app. auto.
Qed.


End PassOutcome.

(** ** seq.py: the alphabet pattern of [_validate_seq] *)

Section ValidateSeq.
Import PyStr Re Seqs Spec.

Lemma compile_seq : compile seq_pattern = Pattern seq_regex.
Proof. reflexivity. Qed.

Lemma existsb_flat_map {A B} (p : B -> bool) (f : A -> list B) l :
  existsb p (flat_map f l) = existsb (fun x => existsb p (f x)) l.
Proof.
  induction l as [|x l IH]; [reflexivity|].
  cbn [flat_map existsb]. rewrite existsb_app, IH. reflexivity.
Qed.

(** The end of the pattern matches to the end of [r] when [r] is empty or
    one asterisk. *)
Lemma star_opt_end r :
  existsb (String.eqb EmptyString) (run star_opt r)
  = match r with
    | EmptyString => true
    | String c r' => Ascii.eqb c "*" && String.eqb r' EmptyString
    end.
Proof.
  destruct r as [|c r']; [reflexivity|].
  change (run star_opt (String c r'))
    with (flat_map (run Eps)
            ((if Ascii.eqb "*" c then [r'] else []) ++ [String c r'])).
  rewrite (Ascii.eqb_sym "*" c). destruct (Ascii.eqb c "*"); cbn.
  - rewrite orb_false_r. destruct r'; reflexivity.
  - reflexivity.
Qed.

Lemma amino_not_star c : amino c = true -> Ascii.eqb c "*" = false.
Proof.
  intros H. destruct (Ascii.eqb_spec c "*") as [->|]; [discriminate H | reflexivity].
Qed.

Lemma star_run_class fuel s :
  (String.length s <= fuel)%nat ->
  existsb (fun r => existsb (String.eqb EmptyString) (run star_opt r))
    (star_run (run (Class alphabet)) fuel s)
  = body_star s.
Proof.
  revert s. induction fuel as [|fuel IH]; intros s Hlen.
  - destruct s; [reflexivity | cbn in Hlen; lia].
  - destruct s as [|c s]; [reflexivity|]. cbn [star_run].
    change (run (Class alphabet) (String c s)) with (if amino c then [s] else []).
    cbn [body_star]. destruct (amino c) eqn:Ec.
    + cbn [List.filter]. unfold shorter at 1. cbn [String.length].
      replace (String.length s <? S (String.length s))%nat with true
        by (symmetry; apply Nat.ltb_lt; lia).
      cbn [flat_map]. rewrite app_nil_r, existsb_app.
      rewrite IH by (cbn in Hlen; lia). cbn [existsb].
      rewrite star_opt_end, (amino_not_star c Ec). cbn [andb].
      rewrite !orb_false_r. reflexivity.
    + cbn [List.filter flat_map app existsb]. rewrite star_opt_end.
      apply orb_false_r.
Qed.

Lemma validate_seq_shape_eq s : _validate_seq s = valid_shape s.
Proof.
  unfold _validate_seq, fullmatch, with_pattern. rewrite compile_seq.
  change (run seq_regex s)
    with (flat_map (run star_opt)
            (flat_map (run (Star (Class alphabet))) (run (Class alphabet) s))).
  rewrite !existsb_flat_map. destruct s as [|c s]; [reflexivity|].
  change (run (Class alphabet) (String c s)) with (if amino c then [s] else []).
  cbn [valid_shape]. destruct (amino c); [|reflexivity].
  cbn [existsb andb]. rewrite orb_false_r.
  change (run (Star (Class alphabet)) s)
    with (star_run (run (Class alphabet)) (String.length s) s).
  apply star_run_class. lia.
Qed.

Lemma amino_stable c : amino c = true -> stable c = true.
Proof.
  unfold amino, eqb_in. rewrite existsb_exists. intros (x & Hin & E).
  apply Ascii.eqb_eq in E. subst x.
  assert (H : forallb stable alphabet = true) by (vm_compute; reflexivity).
  rewrite forallb_forall in H. apply H, Hin.
Qed.

Lemma body_star_stable s : body_star s = true -> all_stable s = true.
Proof.
  induction s as [|c s IH]; [reflexivity|]. cbn [body_star all_stable].
  destruct (amino c) eqn:Ec.
  - intros H. rewrite (amino_stable c Ec), (IH H). reflexivity.
  - intros [Hc Hs]%andb_true_iff. apply Ascii.eqb_eq in Hc.
    apply String.eqb_eq in Hs. subst. reflexivity.
Qed.

Lemma valid_stable s : _validate_seq s = true -> s <> EmptyString /\ all_stable s = true.
Proof.
  rewrite validate_seq_shape_eq. destruct s as [|c s]; [discriminate|].
  cbn [valid_shape all_stable]. intros [Hc Hs]%andb_true_iff.
  split; [discriminate|].
  rewrite (amino_stable c Hc), (body_star_stable s Hs). reflexivity.
Qed.

Lemma stable_upper s : all_stable s = true -> upper s = s.
Proof.
  induction s as [|c s IH]; [reflexivity|]. cbn [all_stable upper].
  intros [Hc Hs]%andb_true_iff. rewrite (IH Hs).
  apply andb_true_iff in Hc as [_ Hc]. apply String.eqb_eq in Hc.
  rewrite Hc. reflexivity.
Qed.

Lemma stable_ends s : all_stable s = true -> first_ok s = true /\ last_ok s = true.
Proof.
  induction s as [|c s IH]; [split; reflexivity|]. cbn [all_stable].
  intros [Hc Hs]%andb_true_iff. apply andb_true_iff in Hc as [Hc _].
  split; [exact Hc|]. destruct s as [|c' s]; [exact Hc|].
  rewrite last_ok_cons by discriminate. apply IH, Hs.
Qed.

Lemma stable_normal s : all_stable s = true -> normalize s = s.
Proof.
  intros H. unfold normalize. destruct (stable_ends s H) as [Hf Hl].
  rewrite (strip_fix s Hf Hl). apply stable_upper, H.
Qed.

(** X12. [_validate_seq] accepts exactly the strings made of one or more
    symbols of the alphabet followed by nothing or by one asterisk. A string
    it accepts has no space character and no lower-case letter: it is its own
    normal form, so [add_seq] stores a valid sequence as it validates it. *)
Theorem validate_seq_shape (s : string) :
  _validate_seq s = valid_shape s
  /\ (_validate_seq s = true -> s <> EmptyString /\ normalize s = s).
Proof.
  split; [apply validate_seq_shape_eq|]. intros H.
  destruct (valid_stable s H) as [Hne Hs]. split; [exact Hne|].
  apply stable_normal, Hs.
Qed.

End ValidateSeq.

(** ** seq.py: [_verify_dscrptr] on candidates without special characters *)

Section VerifyPlain.
Import PyStr Re Seqs Spec.

Lemma parse_plain c p cur stack :
  special c = false ->
  parse (String c p) None cur stack = parse p None (push (Lit c) Plain cur) stack.
Proof.
  unfold special, eqb_in, specials. cbn [list_ascii_of_string existsb].
  intros H. repeat (apply orb_false_iff in H as [? H]).
  cbn [parse].
  repeat match goal with
         | E : Ascii.eqb c ?x = false |- _ => rewrite E; clear E
         end.
  reflexivity.
Qed.

Lemma parse_lits d :
  forall its,
    plain d = true ->
    parse (d +:+ "(?:_\d+)?$") None (Frame [] its) []
    = Pattern (fold_left (fun acc it => Cat (fst it) acc) its (lits d suffix_regex)).
Proof.
  induction d as [|c d IH]; intros its Hd.
  - reflexivity.
  - cbn [plain] in Hd. apply andb_true_iff in Hd as [Hc Hd].
    apply negb_true_iff in Hc. rewrite append_cons, (parse_plain c _ _ _ Hc).
    exact (IH ((Lit c, Plain) :: its) Hd).
Qed.

Lemma compile_plain d :
  plain d = true ->
  compile (d +:+ "(?:_\d+)?$") = Pattern (lits d suffix_regex).
Proof. intros Hd. exact (parse_lits d [] Hd). Qed.

Lemma run_lits d r :
  forall s,
    run (lits d r) s
    = match after_prefix d s with
      | Some rest => run r rest
      | None => []
      end.
Proof.
  induction d as [|c d IH]; intros s; [reflexivity|].
  cbn [lits after_prefix].
  change (run (Cat (Lit c) (lits d r)) s)
    with (flat_map (run (lits d r)) (one (Ascii.eqb c) s)).
  destruct s as [|b s]; [reflexivity|]. cbn [one].
  destruct (Ascii.eqb c b); [|reflexivity].
  cbn [flat_map]. rewrite app_nil_r. apply IH.
Qed.

Lemma run_eol c t :
  run Eol (String c t)
  = if Ascii.eqb c "010" && String.eqb t EmptyString then [String c t] else [].
Proof.
  destruct t as [|c' t].
  - destruct c as [[] [] [] [] [] [] [] []]; reflexivity.
  - rewrite andb_false_r. destruct c as [[] [] [] [] [] [] [] []]; reflexivity.
Qed.

Lemma nonempty_app {A} (l l' : list A) :
  nonempty (l ++ l') = nonempty l || nonempty l'.
Proof. destruct l; reflexivity. Qed.

Lemma flat_map_eps l : flat_map (run Eps) l = l.
Proof.
  induction l as [|x l IH]; [reflexivity|]. cbn [flat_map]. rewrite IH. reflexivity.
Qed.

Lemma run_eol_eps c t :
  nonempty (run (Cat Eol Eps) (String c t))
  = Ascii.eqb c "010" && String.eqb t EmptyString.
Proof.
  change (run (Cat Eol Eps) (String c t))
    with (flat_map (run Eps) (run Eol (String c t))).
  rewrite flat_map_eps, run_eol. destruct (_ && _); reflexivity.
Qed.

Lemma star_run_digits fuel t :
  (String.length t <= fuel)%nat ->
  nonempty (flat_map (run (Cat Eol Eps)) (star_run (run Digit) fuel t))
  = digits_eol true t.
Proof.
  revert t. induction fuel as [|fuel IH]; intros t Hlen.
  - destruct t; [reflexivity | cbn in Hlen; lia].
  - destruct t as [|c t]; [reflexivity|]. cbn [star_run digits_eol].
    change (run Digit (String c t)) with (if is_digit c then [t] else []).
    destruct (is_digit c) eqn:Ec.
    + cbn [List.filter]. unfold shorter at 1. cbn [String.length].
      replace (String.length t <? S (String.length t))%nat with true
        by (symmetry; apply Nat.ltb_lt; lia).
      cbn [flat_map]. rewrite app_nil_r, flat_map_app, nonempty_app.
      rewrite IH by (cbn in Hlen; lia).
      cbn [flat_map]. rewrite app_nil_r, run_eol_eps.
      replace (Ascii.eqb c "010") with false; [apply orb_false_r|].
      symmetry. destruct (Ascii.eqb_spec c "010") as [->|]; [discriminate Ec | reflexivity].
    + cbn [List.filter flat_map app]. rewrite app_nil_r. apply run_eol_eps.
Qed.

Lemma run_number r :
  nonempty (flat_map (run (Cat Eol Eps)) (run number_regex r))
  = match r with
    | EmptyString => false
    | String c r' => Ascii.eqb c "_" && digits_eol false r'
    end.
Proof.
  destruct r as [|c r']; [reflexivity|].
  change (run number_regex (String c r'))
    with (flat_map (run (Cat (Cat Digit (Star Digit)) Eps))
            (if Ascii.eqb "_" c then [r'] else [])).
  rewrite (Ascii.eqb_sym "_" c). destruct (Ascii.eqb c "_"); [|reflexivity].
  cbn [flat_map andb]. rewrite app_nil_r.
  change (run (Cat (Cat Digit (Star Digit)) Eps) r')
    with (flat_map (run Eps) (flat_map (run (Star Digit)) (run Digit r'))).
  rewrite flat_map_eps. destruct r' as [|e r'']; [reflexivity|].
  change (run Digit (String e r'')) with (if is_digit e then [r''] else []).
  cbn [digits_eol]. destruct (is_digit e); [|reflexivity].
  cbn [flat_map]. rewrite app_nil_r.
  change (run (Star Digit) r'')
    with (star_run (run Digit) (String.length r'') r'').
  apply star_run_digits. lia.
Qed.

Lemma run_suffix rest : nonempty (run suffix_regex rest) = suffix_ok rest.
Proof.
  change (run suffix_regex rest)
    with (flat_map (run (Cat Eol Eps)) (run number_regex rest ++ [rest])).
  rewrite flat_map_app, nonempty_app, run_number.
  cbn [flat_map]. rewrite app_nil_r.
  destruct rest as [|c r']; [reflexivity|]. rewrite run_eol_eps. reflexivity.
Qed.

(** The characters of [b] and then the end of the pattern match at the
    start of the descriptors that [in_family] accepts. *)
Lemma matches_plain b k :
  nonempty (run (lits b suffix_regex) k) = in_family b k.
Proof.
  rewrite run_lits. unfold in_family.
  destruct (after_prefix b k); [apply run_suffix | reflexivity].
Qed.

Lemma append_nil_r s : s +:+ EmptyString = s.
Proof. induction s as [|c s IH]; [reflexivity|]. rewrite append_cons, IH. reflexivity. Qed.

Lemma after_prefix_app b r : after_prefix b (b +:+ r) = Some r.
Proof.
  induction b as [|c b IH]; [destruct r; reflexivity|].
  rewrite append_cons. cbn [after_prefix]. rewrite Ascii.eqb_refl. exact IH.
Qed.

Lemma after_prefix_some b :
  forall k r, after_prefix b k = Some r -> k = b +:+ r.
Proof.
  induction b as [|c b IH]; intros k r.
  - destruct k; intros [= <-]; reflexivity.
  - destruct k as [|c' k]; [discriminate|]. cbn [after_prefix].
    destruct (Ascii.eqb_spec c c') as [<-|]; [|discriminate].
    intros H. rewrite append_cons, <- (IH k r H). reflexivity.
Qed.

Lemma digits_eol_digits seen t :
  all_digits t = true -> seen = true \/ t <> EmptyString ->
  digits_eol seen t = true.
Proof.
  revert seen. induction t as [|c t IH]; intros seen.
  - intros _ [->|H]; [reflexivity | contradiction].
  - cbn [all_digits digits_eol]. intros [Hc Ht]%andb_true_iff _.
    rewrite Hc. apply IH; auto.
Qed.

Lemma digits_eol_inv seen t :
  digits_eol seen t = true -> last_ok t = true ->
  all_digits t = true /\ (seen = true \/ t <> EmptyString).
Proof.
  revert seen. induction t as [|c t IH]; intros seen.
  - cbn. auto.
  - cbn [digits_eol all_digits]. destruct (is_digit c) eqn:Ec.
    + intros H Hl. split; [|right; discriminate]. destruct t as [|c' t]; [reflexivity|].
      rewrite last_ok_cons in Hl by discriminate.
      destruct (IH true H Hl) as [-> _]. reflexivity.
    + intros [[_ Hc]%andb_true_iff Ht]%andb_true_iff Hl.
      apply Ascii.eqb_eq in Hc. apply String.eqb_eq in Ht. subst. discriminate Hl.
Qed.

Lemma in_family_tidy b k :
  last_ok k = true -> (in_family b k = true <-> family b k).
Proof.
  intros Hl. unfold in_family, family. split.
  - destruct (after_prefix b k) as [rest|] eqn:E; [|discriminate].
    apply after_prefix_some in E. subst k. destruct rest as [|c r'].
    + intros _. left. apply append_nil_r.
    + cbn [suffix_ok]. intros [[Hc Hd]%andb_true_iff|[Hc Hr]%andb_true_iff]%orb_true_iff.
      * apply Ascii.eqb_eq in Hc. subst c. right. exists r'.
        rewrite last_ok_app in Hl by discriminate.
        destruct r' as [|e r'']; [discriminate Hd|].
        rewrite last_ok_cons in Hl by discriminate.
        destruct (digits_eol_inv _ _ Hd Hl) as [Hall _]. split; [exact Hall | reflexivity].
      * apply Ascii.eqb_eq in Hc. apply String.eqb_eq in Hr. subst.
        rewrite last_ok_app in Hl by discriminate. discriminate Hl.
  - intros [->|(t & Ht & ->)].
    + rewrite <- (append_nil_r b) at 2. rewrite after_prefix_app. reflexivity.
    + rewrite after_prefix_app.
      change ("_" +:+ t) with (String "_" t). cbn [suffix_ok].
      rewrite Ascii.eqb_refl. cbn [andb]. apply orb_true_iff. left.
      apply digits_eol_digits; [apply isdecimal_digits, Ht|].
      right. intros ->. discriminate Ht.
Qed.

Lemma plain_app a b : plain (a +:+ b) = plain a && plain b.
Proof.
  induction a as [|c a IH]; [reflexivity|].
  rewrite append_cons. cbn [plain]. rewrite IH, andb_assoc. reflexivity.
Qed.

Lemma plain_stem d : plain d = true -> plain (fst (stem d)) = true.
Proof.
  intros Hd. unfold stem. destruct (rcut d) as [[h t]|] eqn:E; [|exact Hd].
  destruct (isdecimal t); [|exact Hd]. cbn [fst].
  rewrite (rcut_join d h t E), plain_app in Hd.
  apply andb_true_iff in Hd as [Hh _]. exact Hh.
Qed.

Lemma family_self d : family (fst (stem d)) d.
Proof.
  unfold stem. destruct (rcut d) as [[h t]|] eqn:E; [|left; reflexivity].
  destruct (isdecimal t) eqn:Ht; [|left; reflexivity].
  right. exists t. split; [exact Ht | apply rcut_join, E].
Qed.

Lemma find_unique {A} (p : A -> bool) (l : list A) x :
  In x l -> p x = true -> (forall y, In y l -> p y = true -> y = x) ->
  List.find p l = Some x.
Proof.
  induction l as [|y l IH]; [contradiction|]. cbn [In List.find].
  intros Hin Hx Hall. destruct (p y) eqn:Ey.
  - f_equal. apply Hall; auto.
  - destruct Hin as [->|Hin]; [congruence|]. apply IH; auto.
Qed.

Lemma find_absent {A} (p : A -> bool) (l : list A) :
  (forall y, In y l -> p y = false) -> List.find p l = None.
Proof.
  induction l as [|y l IH]; [reflexivity|]. cbn [In List.find].
  intros Hall. rewrite (Hall y) by auto. apply IH. auto.
Qed.

Lemma verify_plain_find st c s :
  plain (strip c) = true ->
  _verify_dscrptr st c s
  = Ok (from_option id EmptyString
          (List.find (fun k => in_family (fst (stem (strip c))) k
                               && bool_decide (get_seq st k = Some (normalize s)))
                     (dscrptrs st))).
Proof.
  intros Hc. unfold _verify_dscrptr. fold (normalize s).
  rewrite (first_match_find st _ (lits (fst (stem (strip c))) suffix_regex)).
  - f_equal. f_equal. induction (dscrptrs st) as [|k ks IH]; [reflexivity|].
    cbn [List.find]. rewrite matches_plain.
    rewrite IH. reflexivity.
  - rewrite verify_pattern_raw. apply compile_plain, plain_stem, Hc.
Qed.

Lemma get_stored st k x : get_seq st k = Some x -> k ∈ dscrptrs st.
Proof.
  intros H. apply get_In in H. unfold dscrptrs, Dict.keys.
  apply list_elem_of_fmap. exists (k, x). auto.
Qed.

Lemma verify_plain_hit st c s k :
  reachable st -> plain (strip c) = true ->
  get_seq st k = Some (normalize s) ->
  family (fst (stem (strip c))) k ->
  _verify_dscrptr st c s = Ok k.
Proof.
  intros Hst Hc Hget Hfam. pose proof (reachable_wf st Hst) as [Hk Hv Hu Hok].
  pose proof (reachable_tidy st Hst) as Htidy. rewrite Forall_forall in Htidy.
  rewrite (verify_plain_find st c s Hc).
  erewrite find_unique; [reflexivity| | |].
  - apply list_elem_of_In, (get_stored st k _ Hget).
  - apply andb_true_iff. split; [|apply bool_decide_eq_true_2, Hget].
    apply in_family_tidy; [|exact Hfam]. apply (Htidy k), (get_stored st k _ Hget).
  - intros y _ [_ Hy]%andb_true_iff. apply bool_decide_eq_true in Hy.
    apply (values_nodup_key (_seqs st) y k (normalize s) Hv);
      apply get_In; assumption.
Qed.

Lemma verify_plain_miss st c s :
  reachable st -> plain (strip c) = true ->
  (forall k, get_seq st k = Some (normalize s) ->
             ~ family (fst (stem (strip c))) k) ->
  _verify_dscrptr st c s = Ok EmptyString.
Proof.
  intros Hst Hc Hnone.
  pose proof (reachable_tidy st Hst) as Htidy. rewrite Forall_forall in Htidy.
  rewrite (verify_plain_find st c s Hc).
  rewrite find_absent; [reflexivity|].
  intros y Hy. apply andb_false_iff.
  destruct (bool_decide (get_seq st y = Some (normalize s))) eqn:E; [|auto].
  left. apply bool_decide_eq_true in E.
  destruct (in_family (fst (stem (strip c))) y) eqn:Ef; [|reflexivity].
  exfalso. apply (Hnone y E). apply in_family_tidy; [|exact Ef].
  apply (Htidy y), list_elem_of_In, Hy.
Qed.

(** A stored descriptor without special characters, given with its
    sequence, is resolved to itself. *)
Lemma verify_plain_self st d seq :
  reachable st -> plain d = true -> get_seq st d = Some seq ->
  _verify_dscrptr st d seq = Ok d.
Proof.
  intros Hst Hd Hget. pose proof (reachable_wf st Hst) as [Hk Hv Hu Hok].
  pose proof (reachable_tidy st Hst) as Htidy. rewrite Forall_forall in Htidy.
  assert (Hstrip : strip d = d)
    by (apply tidy_strip, (Htidy d), (get_stored st d _ Hget)).
  assert (Hnorm : normalize seq = seq).
  { apply stable_normal, valid_stable, Hok, get_seq_value with d, Hget. }
  apply verify_plain_hit; [exact Hst | rewrite Hstrip; exact Hd | |].
  - rewrite Hnorm. exact Hget.
  - rewrite Hstrip. apply family_self.
Qed.

(** X13. On a registry built by the operations, and for a candidate that,
    trimmed, has none of the characters special in a pattern,
    [_verify_dscrptr] does what its docstring says: with [b] the candidate
    without its number, it returns the descriptor that holds the normalized
    sequence when that descriptor is [b] or [b] followed by an underscore and
    a number, and the empty string when no such descriptor holds it. So a
    stored descriptor without special characters, given with its stored
    sequence, is resolved to itself. *)
Theorem verify_dscrptr_plain (st : Seqs.t) :
  reachable st ->
  (forall c s,
      plain (strip c) = true ->
      (forall k,
          get_seq st k = Some (normalize s) ->
          family (fst (stem (strip c))) k ->
          _verify_dscrptr st c s = Ok k)
      /\ ((forall k,
              get_seq st k = Some (normalize s) ->
              ~ family (fst (stem (strip c))) k) ->
          _verify_dscrptr st c s = Ok EmptyString))
  /\ (forall d seq,
         plain d = true -> get_seq st d = Some seq ->
         _verify_dscrptr st d seq = Ok d).
Proof.
  intros Hst. split.
  - intros c s Hc. split.
    + intros k. apply verify_plain_hit; assumption.
    + apply verify_plain_miss; assumption.
  - intros d seq. apply verify_plain_self, Hst.
Qed.

(** The theorem at the registry that holds [ACD] under [p1]: the
    descriptor resolves to itself, and so does it with a number added. *)
Lemma verify_dscrptr_plain_witness :
  reachable Example.one_seq
  /\ _verify_dscrptr Example.one_seq "p1" "ACD" = Ok "p1"
  /\ _verify_dscrptr Example.one_seq "p1_3" "acd" = Ok "p1".
Proof.
  split; [exact one_seq_reachable|].
  destruct (verify_dscrptr_plain Example.one_seq one_seq_reachable) as [H1 H2].
  split.
  - apply H2; reflexivity.
  - destruct (H1 "p1_3" "acd") as [H _]; [reflexivity|].
    apply H; [reflexivity|]. left. reflexivity.
Defined.

End VerifyPlain.

(** ** seq.py: [get_fasta] *)

Section GetFasta.
Import PyStr Seqs Spec.

Lemma fold_text (l : list (string * string)) :
  forall acc,
    fold_left (fun out e => out +:+ ">" +:+ fst e +:+ nl +:+ snd e +:+ nl) l acc
    = acc +:+ text l.
Proof.
  induction l as [|e l IH]; intros acc; cbn [fold_left text].
  - symmetry. apply append_nil_r.
  - rewrite IH. unfold block. rewrite !append_assoc. reflexivity.
Qed.

Lemma get_fasta_text st : get_fasta st = rstrip_nl (text (_seqs st)).
Proof.
  unfold get_fasta. cbv zeta.
  change (fold_left _ (_seqs st) EmptyString)
    with (fold_left (fun out e => out +:+ ">" +:+ fst e +:+ nl +:+ snd e +:+ nl)
            (_seqs st) EmptyString).
  rewrite fold_text. reflexivity.
Qed.

Lemma rstrip_nl_cons c s :
  rstrip_nl (String c s)
  = match rstrip_nl s with
    | EmptyString => if Ascii.eqb c "010" then EmptyString else String c EmptyString
    | String c' r => String c (String c' r)
    end.
Proof. reflexivity. Qed.

Lemma rstrip_nl_app s : rstrip_nl (s +:+ nl) = rstrip_nl s.
Proof.
  induction s as [|c s IH]; [reflexivity|].
  rewrite append_cons, !rstrip_nl_cons, IH. reflexivity.
Qed.

Lemma ends_nl_cons c s : s <> EmptyString -> ends_nl (String c s) = ends_nl s.
Proof. destruct s; [contradiction | reflexivity]. Qed.

Lemma rstrip_nl_fix s : ends_nl s = false -> rstrip_nl s = s.
Proof.
  induction s as [|c s IH]; [reflexivity|]. destruct s as [|c' s].
  - cbn. intros ->. reflexivity.
  - rewrite ends_nl_cons by discriminate. intros H.
    rewrite rstrip_nl_cons, (IH H). reflexivity.
Qed.

Lemma ends_nl_app s t : t <> EmptyString -> ends_nl (s +:+ t) = ends_nl t.
Proof.
  intros Ht. induction s as [|c s IH]; [reflexivity|].
  rewrite append_cons, ends_nl_cons; [exact IH|].
  destruct s; [exact Ht | discriminate].
Qed.

Lemma stable_ends_nl s : all_stable s = true -> ends_nl s = false.
Proof.
  induction s as [|c s IH]; [reflexivity|]. cbn [all_stable].
  intros [Hc Hs]%andb_true_iff. destruct s as [|c' s].
  - cbn. apply andb_true_iff in Hc as [Hc _]. apply negb_true_iff in Hc.
    destruct (Ascii.eqb_spec c "010") as [->|]; [discriminate Hc | reflexivity].
  - rewrite ends_nl_cons by discriminate. apply IH, Hs.
Qed.

Lemma fasta_rows_cons e l :
  fasta_rows (e :: l) = (">" +:+ fst e) :: snd e :: fasta_rows l.
Proof. reflexivity. Qed.

Lemma join_rows_head e l :
  exists rest, join nl (fasta_rows (e :: l)) = String ">" rest.
Proof.
  rewrite fasta_rows_cons. cbn [join]. eexists. reflexivity.
Qed.

Lemma text_join l :
  l <> [] -> text l = join nl (fasta_rows l) +:+ nl.
Proof.
  induction l as [|e l IH]; [contradiction|]. intros _.
  cbn [text]. rewrite fasta_rows_cons. destruct l as [|e' l].
  - cbn [text fasta_rows flat_map join]. unfold block.
    rewrite append_nil_r, !append_assoc. reflexivity.
  - rewrite IH by discriminate. rewrite fasta_rows_cons.
    set (rest := fasta_rows l). cbn [join]. unfold block.
    rewrite !append_assoc. reflexivity.
Qed.

Lemma join_rows_ends l :
  Forall (fun e => _validate_seq (snd e) = true) l ->
  ends_nl (join nl (fasta_rows l)) = false.
Proof.
  induction 1 as [|e l He _ IH]; [reflexivity|].
  destruct (valid_stable _ He) as [Hne Hs].
  rewrite fasta_rows_cons. destruct l as [|e' l].
  - cbn [fasta_rows flat_map join]. rewrite !ends_nl_app; try assumption.
    + apply stable_ends_nl, Hs.
    + destruct (snd e); [contradiction | discriminate].
  - destruct (join_rows_head e' l) as [rest Hrest].
    rewrite fasta_rows_cons in *. set (J := join nl _) in *.
    change (join nl ((">" +:+ fst e) :: snd e :: (">" +:+ fst e') :: snd e' :: fasta_rows l))
      with ((">" +:+ fst e) +:+ nl +:+ snd e +:+ nl +:+ J).
    assert (HJ : J <> EmptyString) by (rewrite Hrest; discriminate).
    rewrite !ends_nl_app; try assumption.
    + rewrite Hrest. discriminate.
    + destruct (snd e); rewrite Hrest; discriminate.
    + rewrite Hrest. destruct (snd e); discriminate.
Qed.

(** X14. For a registry built by the operations, [get_fasta] is the rows
    [>descriptor] and [sequence] of its entries, in their order, joined by
    line feeds, with no line feed at the end; it is the empty string exactly
    when the registry has no entry, which is when [run] ends the program for
    want of sequences. *)
Theorem get_fasta_format (st : Seqs.t) :
  reachable st ->
  get_fasta st = join nl (fasta_rows (_seqs st))
  /\ (get_fasta st = EmptyString <-> _seqs st = []).
Proof.
  intros Hst. pose proof (reachable_wf st Hst) as [_ _ _ Hok].
  assert (Hvalid : Forall (fun e => _validate_seq (snd e) = true) (_seqs st)).
  { apply Forall_forall. intros [d s] Hin. apply Hok. unfold Dict.values.
    apply list_elem_of_fmap. exists (d, s). split; [reflexivity | exact Hin]. }
  assert (E : get_fasta st = join nl (fasta_rows (_seqs st))).
  { rewrite get_fasta_text. destruct (_seqs st) as [|e l] eqn:El; [reflexivity|].
    rewrite text_join by discriminate. rewrite rstrip_nl_app.
    apply rstrip_nl_fix, join_rows_ends, Hvalid. }
  split; [exact E|]. rewrite E. split.
  - destruct (_seqs st) as [|e l]; [reflexivity|].
    destruct (join_rows_head e l) as [rest ->]. discriminate.
  - intros ->. reflexivity.
Qed.

(** The format at the registry that holds [ACD] under [p1]. *)
Lemma get_fasta_format_witness :
  reachable Example.one_seq
  /\ get_fasta Example.one_seq = ">p1
ACD".
Proof.
  split; [exact one_seq_reachable|].
  destruct (get_fasta_format Example.one_seq one_seq_reachable) as [-> _].
  reflexivity.
Defined.

End GetFasta.

(** ** fp.py: [process_fasta] *)

Section ProcessFasta.
Import PyStr Seqs Spec.

Lemma add_seq_cases st d s :
  add_seq st d s = Some (2, st)
  \/ add_seq st d s = Some (1, st)
  \/ exists d', add_seq st d s = Some (0, added st d' (normalize s)).
Proof.
  destruct (decide (normalize s ∈ seqs st)) as [H|H].
  { left. apply add_seq_duplicate, H. }
  destruct (_validate_seq (normalize s)) eqn:Hv.
  - right. right. destruct (add_seq_added st d s H Hv) as (k & _ & _ & E). eauto.
  - right. left. apply add_seq_invalid; assumption.
Qed.

Lemma add_seq_fresh st d s :
  tidy d -> d ∉ dscrptrs st -> _validate_seq s = true -> s ∉ seqs st ->
  add_seq st d s = Some (0, added st d s).
Proof.
  intros Hd Hfree Hv Hnew.
  assert (Hn : normalize s = s) by (apply stable_normal, valid_stable, Hv).
  assert (Hfirst : first_dscrptr st d = d).
  { unfold first_dscrptr. rewrite (tidy_strip d Hd). destruct Hd as [Hne _].
    apply String.eqb_neq in Hne. rewrite Hne. reflexivity. }
  destruct (add_seq_added st d s) as (k & Hbusy & _ & Heq);
    [rewrite Hn; exact Hnew | rewrite Hn; exact Hv |].
  destruct k as [|k].
  - rewrite Heq. cbn [iter_bump]. rewrite Hfirst, Hn. reflexivity.
  - exfalso. apply Hfree. specialize (Hbusy O). cbn [iter_bump] in Hbusy.
    rewrite Hfirst in Hbusy. apply Hbusy. lia.
Qed.



Lemma rows_loop_body body :
  forall cur p dp inv st',
    body <> [] ->
    Forall (fun row => is_header row = false) body ->
    stitched p body <> EmptyString ->
    add_seq cur dp (stitched p body) = Some (0, st') ->
    Fp.rows_loop body cur p dp inv = Some (Ok (st', inv)).
Proof.
  induction body as [|row body IH]; intros cur p dp inv st' Hne Hall Hs Hadd;
    [contradiction|].
  apply Forall_cons in Hall as [Hrow Hall]. unfold is_header in Hrow.
  cbn [Fp.rows_loop]. cbv zeta. rewrite Hrow. cbn [negb andb].
  cbn [stitched fold_left] in Hs, Hadd. fold (stitched (p +:+ strip row) body) in Hs, Hadd.
  destruct body as [|row' body].
  - cbn [stitched fold_left] in Hs, Hadd. apply String.eqb_neq in Hs.
    rewrite Hs, Hadd. reflexivity.
  - apply IH; [discriminate | assumption..].
Qed.

Lemma stitched_valid body :
  _validate_seq (normalize (stitched EmptyString body)) = true ->
  body <> [] /\ stitched EmptyString body <> EmptyString.
Proof.
  intros H. split; intros E; rewrite E in H; discriminate H.
Qed.

Lemma add_seq_first d s :
  _validate_seq (normalize s) = true ->
  add_seq init d s = Some (0, added init (first_dscrptr init d) (normalize s)).
Proof.
  intros Hv.
  destruct (add_seq_added init d s) as (k & Hbusy & _ & Heq);
    [apply not_elem_of_empty | exact Hv |].
  destruct k as [|k]; [exact Heq|].
  specialize (Hbusy O). cbn [iter_bump] in Hbusy.
  exfalso. eapply not_elem_of_nil. apply Hbusy. lia.
Qed.

(** X16. A file with one sequence, spread over any number of rows, gives
    a registry with one entry: its sequence is the normal form of the rows,
    each trimmed, put together in their order, when that is valid. Without a
    header the entry goes under [seq_1]; after one header row it goes under
    the header without its [>] and trimmed, or under [seq_1] when nothing is
    left of it. *)
Theorem fasta_stitch (file : string) (body : list string) (answer : string) :
  Forall (fun row => is_header row = false) body ->
  _validate_seq (normalize (stitched EmptyString body)) = true ->
  Fp.process_fasta file (Some body) answer
  = Some (Ok (added init "seq_1" (normalize (stitched EmptyString body))))
  /\ forall header,
       is_header header = true ->
       Fp.process_fasta file (Some (header :: body)) answer
       = Some (Ok (added init
                     (first_dscrptr init (Fp.removeprefix (strip header)))
                     (normalize (stitched EmptyString body)))).
Proof.
  intros Hall Hv. destruct (stitched_valid body Hv) as [Hne Hs]. split.
  - unfold Fp.process_fasta.
    rewrite (rows_loop_body body init EmptyString EmptyString 0 _ Hne Hall Hs
               (add_seq_first EmptyString _ Hv)).
    reflexivity.
  - intros header Hh. unfold Fp.process_fasta, is_header in *.
    cbn [Fp.rows_loop]. cbv zeta. rewrite Hh. cbn [negb andb String.eqb].
    rewrite (rows_loop_body body init EmptyString _ 0 _ Hne Hall Hs
               (add_seq_first _ _ Hv)).
    cbn [Z.ltb Z.compare]. unfold first_dscrptr. rewrite strip_idem. reflexivity.
Qed.

(** The theorem at a sequence on two rows, under a header and without. *)
Lemma fasta_stitch_witness :
  Fp.process_fasta "a.fasta" (Some [">prot A
"; "acd
"; " efg"]) EmptyString
  = Some (Ok (added init "prot A" "ACDEFG"))
  /\ Fp.process_fasta "a.fasta" (Some ["acd
"; " efg"]) EmptyString
     = Some (Ok (added init "seq_1" "ACDEFG")).
Proof.
  destruct (fasta_stitch "a.fasta" ["acd
"; " efg"] EmptyString) as [H1 H2].
  - repeat constructor.
  - vm_compute. reflexivity.
  - split; [|exact H1]. apply (H2 ">prot A
"). reflexivity.
Defined.



Lemma addable_entries l :
  forall cur,
    Forall (fun e => tidy (fst e) /\ _validate_seq (snd e) = true) l ->
    NoDup (Dict.keys l) -> NoDup (Dict.values l) ->
    (forall e, e ∈ l -> (fst e ∉ dscrptrs cur) /\ (snd e ∉ seqs cur)) ->
    addable cur l.
Proof.
  induction l as [|[d s] l IH]; intros cur Hall Hk Hv Hout; [exact I|].
  apply Forall_cons in Hall as [[Ht Hval] Hall].
  cbn [Dict.keys Dict.values map fst snd] in Hk, Hv.
  apply NoDup_cons in Hk as [Hd Hk]. apply NoDup_cons in Hv as [Hs Hv].
  cbn [addable fst snd]. destruct (Hout (d, s)) as [H1 H2]; [left|].
  split; [exact Ht|]. split; [exact H1|]. split; [exact Hval|]. split; [exact H2|].
  apply IH; try assumption.
  intros [d' s'] Hin. destruct (Hout (d', s')) as [H3 H4]; [right; exact Hin|].
  cbn [fst snd] in *. unfold added, dscrptrs, seqs, Dict.keys. cbn [_seqs _useqs].
  rewrite map_app. cbn [map fst]. split.
  - rewrite elem_of_app, list_elem_of_singleton. intros [H| ->]; [exact (H3 H)|].
    apply Hd. apply list_elem_of_fmap. exists (d, s'). auto.
  - rewrite elem_of_union, elem_of_singleton. intros [->|H]; [|exact (H4 H)].
    apply Hs. apply list_elem_of_fmap. exists (d', s). auto.
Qed.



End ProcessFasta.

(** ** The registry: what it keeps for a descriptor *)

Section StoredLists.
Import PyStr Seqs Spec.

Lemma add_seq_lists st d s c st' :
  add_seq st d s = Some (c, st') ->
  _structures st' = _structures st /\ _accessions st' = _accessions st.
Proof.
  destruct (add_seq_cases st d s) as [E|[E|[k E]]]; rewrite E;
    intros [= <- <-]; split; reflexivity.
Qed.

Lemma reachable_lists st :
  reachable st ->
  (forall d l, get_structures st d = Some l -> tagged l)
  /\ (forall d l, Dict.get d (accessions st) = Some l -> l <> []).
Proof.
  unfold get_structures, accessions.
  induction 1 as [|st d s c st' _ IH Hadd|st d a s v b st' _ IH Hadd
                  |st d l s v b st' _ IH Hadd].
  - split; intros d l; cbn; [rewrite lookup_empty|]; discriminate.
  - apply add_seq_lists in Hadd as [-> ->]. exact IH.
  - destruct IH as [IH1 IH2].
    pose proof (add_accessions_seqs _ _ _ _ _ _ _ Hadd) as (_ & _ & Hs).
    split; [rewrite Hs; exact IH1|]. revert Hadd. unfold add_accessions.
    destruct (if v then _ else _) as [d'| | |]; cbn [mbind result_bind];
      try discriminate.
    destruct (v && String.eqb d' ""); [intros [= <- <-]; exact IH2|].
    destruct (0 <? length a)%nat eqn:El; [|intros [= <- <-]; exact IH2].
    intros [= <- <-] k l. cbn [_accessions].
    destruct (String.eqb_spec k d') as [->|Hk].
    + rewrite get_set_eq. intros [= <-] ->. discriminate El.
    + rewrite get_set_ne by congruence. apply IH2.
  - destruct IH as [IH1 IH2].
    pose proof (add_structures_seqs _ _ _ _ _ _ _ Hadd) as (_ & _ & Ha).
    split; [|rewrite Ha; exact IH2]. revert Hadd. unfold add_structures.
    destruct (if v then _ else _) as [d'| | |]; cbn [mbind result_bind];
      try discriminate.
    destruct (v && String.eqb d' ""); [intros [= <- <-]; exact IH1|].
    destruct l as [|tag rest]; [discriminate|].
    destruct (mem tag valid) eqn:Et; cbn [negb]; [|discriminate].
    destruct (1 <? length (tag :: rest))%nat eqn:El; [|intros [= <- <-]; exact IH1].
    intros [= <- <-] k l. cbn [_structures].
    destruct (decide (k = d')) as [->|Hk].
    + rewrite lookup_insert_eq. intros [= <-]. exists tag, rest.
      split; [reflexivity|]. split; [apply mem_valid, Et|].
      intros ->. discriminate El.
    + rewrite lookup_insert_ne by congruence. apply IH1.
Qed.

(** X18. In a registry built by the operations, every list of structures
    that is stored starts with [pdb] or [EBI-AF] and has at least one
    structure after the tag, so that [save_structures] can read its first
    element and finds one of the two tags; and no stored list of accessions
    is empty. *)
Theorem stored_lists (st : Seqs.t) :
  reachable st ->
  (forall d l, get_structures st d = Some l -> tagged l)
  /\ (forall d l, Dict.get d (accessions st) = Some l -> l <> []).
Proof. apply reachable_lists. Qed.

(** The theorem at the registry that holds [ACD] under [p1] with two
    accessions and a structure. *)
Lemma stored_lists_witness :
  reachable Example.with_pdb
  /\ get_structures Example.with_pdb "p1" = Some ["pdb"; "1ABC"]
  /\ tagged ["pdb"; "1ABC"].
Proof.
  split; [exact with_pdb_reachable|].
  assert (E : get_structures Example.with_pdb "p1" = Some ["pdb"; "1ABC"])
    by (vm_compute; reflexivity).
  split; [exact E|].
  destruct (stored_lists Example.with_pdb with_pdb_reachable) as [H _].
  exact (H "p1" _ E).
Defined.

End StoredLists.

(** ** PySeqSt.py: a single sequence, and the three passes *)

Section MainFlow.
Import PyStr Seqs Spec.

(** X19. [process_input] always ends. It returns a registry exactly when
    the normal form of the input matches the alphabet pattern, and the
    registry then has the one entry [seq_1] with that normal form; otherwise
    it ends the program with its message. *)
Theorem process_input_result (seq : string) :
  Main.process_input seq
  = Some (if _validate_seq (normalize seq)
          then Ok (added init "seq_1" (normalize seq))
          else Exit Main.E1).
Proof.
  unfold Main.process_input. destruct (_validate_seq (normalize seq)) eqn:Hv.
  - rewrite (add_seq_first EmptyString seq Hv). reflexivity.
  - rewrite (add_seq_invalid init EmptyString seq); [reflexivity| |exact Hv].
    apply not_elem_of_empty.
Qed.

Lemma get_some_keys {V} k (v : V) l : Dict.get k l = Some v -> k ∈ Dict.keys l.
Proof.
  intros H. apply get_In in H. unfold Dict.keys.
  apply list_elem_of_fmap. exists (k, v). auto.
Qed.

Lemma keys_get_some {V} k (l : list (string * V)) :
  k ∈ Dict.keys l -> exists v, Dict.get k l = Some v.
Proof.
  intros H. destruct (Dict.get k l) as [v|] eqn:E; [eauto|].
  apply get_none_keys in E. contradiction.
Qed.

(** X20. The three passes of [main], run on a registry that has neither
    accessions nor structures yet (as [process_fasta], [process_input] and
    [extractseq] return it): when they return, the entries are as before,
    the count is between 0 and the number of reports, and every descriptor
    with accessions or structures is a descriptor of the registry, so that
    [save_structures] writes below a folder [_make_outputdirs] has made. *)
Theorem passes_keys (convert : list string -> result (list string))
    (search : string -> Pd.response) (fetch : string -> Af.response)
    (reports : list Bl.report) (st : Seqs.t) (c : Z) (st' : Seqs.t) :
  reachable st -> accessions st = [] -> structures st = ∅ ->
  Main.passes convert search fetch reports st = Ok (c, st') ->
  reachable st'
  /\ _seqs st' = _seqs st
  /\ seqs st' = seqs st
  /\ 0 <= c <= Z.of_nat (length reports)
  /\ (forall d, d ∈ Dict.keys (accessions st') -> d ∈ dscrptrs st)
  /\ (forall d l, get_structures st' d = Some l -> d ∈ dscrptrs st /\ tagged l).
Proof.
  intros Hst Ha Hs. unfold Main.passes, Bl.process.
  destruct (Bl.process_loop convert reports st 0) as [[c1 st1]| | |] eqn:E1;
    cbn [mbind result_bind fst snd]; try discriminate.
  apply process_loop_grown in E1 as ([Hs1 Hu1 Ha1 Ht1] & Hc1 & Hr1).
  unfold Pd.uniprot_to_pdb.
  pose proof (pd_descriptor_loop_outcome search (accessions st1) st1 []) as H2.
  destruct (Pd.descriptor_loop search (accessions st1) st1 [])
    as [[st2 asked2]| | |]; cbn [mbind result_bind fst snd]; try discriminate.
  destruct H2 as [[Hs2 Hu2 Ha2 Hr2 Ht2] _].
  unfold Af.from_uniprot.
  pose proof (af_descriptor_loop_outcome fetch (accessions st2) st2 []) as H3.
  destruct (Af.descriptor_loop fetch (accessions st2) st2 [])
    as [[st3 asked3]| | |]; cbn [mbind result_bind fst snd]; try discriminate.
  destruct H3 as [[Hs3 Hu3 Ha3 Hr3 Ht3] _].
  intros [= <- <-].
  assert (Hacc1 : forall d, d ∈ Dict.keys (accessions st1) -> d ∈ dscrptrs st).
  { intros d (l & Hl)%keys_get_some. destruct (Ha1 d l Hl) as [H|[H _]]; [|exact H].
    rewrite Ha in H. discriminate H. }
  assert (Ea2 : accessions st2 = accessions st1) by exact Ha2.
  assert (Ea3 : accessions st3 = accessions st1)
    by (unfold accessions in *; congruence).
  assert (Hr : reachable st3) by auto.
  split; [exact Hr|]. split; [congruence|].
  split; [unfold seqs; congruence|]. split; [lia|].
  split; [rewrite Ea3; exact Hacc1|].
  intros d l Hl. split; [|exact (proj1 (reachable_lists st3 Hr) d l Hl)].
  destruct (Ht3 d l Hl) as [Hl2|[[Hk _] _]]; [|rewrite Ea2 in Hk; auto].
  destruct (Ht2 d l Hl2) as [Hl1|[Hk _]]; [|auto].
  destruct (Ht1 d l Hl1) as [Hl0|[Hk _]]; [|exact Hk].
  unfold get_structures in Hl0. unfold structures in Hs. rewrite Hs in Hl0.
  rewrite lookup_empty in Hl0. discriminate Hl0.
Qed.

(** The theorem at the registry with one sequence of length 10, the report
    of its search, a structure search that knows nothing and a model service
    that has a model for every accession: the structure the hit names stays,
    and no model is fetched. *)
Lemma passes_keys_witness :
  exists st',
    Main.passes Example.convert1 Example.search2 Example.fetch_all
      [Example.report_ten] Example.ten = Ok (0, st')
    /\ get_structures st' "q1" = Some ["pdb"; "1ABC"]
    /\ "q1" ∈ dscrptrs Example.ten.
Proof.
  assert (E : Main.passes Example.convert1 Example.search2 Example.fetch_all
                [Example.report_ten] Example.ten
              = Ok (0, Example.stored
                         (add_structures
                            (Example.stored
                               (add_accessions Example.ten "q1" ["P12345"]
                                  "ACDEFGHIKL" true))
                            "q1" ["pdb"; "1ABC"] "ACDEFGHIKL" true)))
    by (vm_compute; reflexivity).
  eexists. split; [exact E|].
  assert (Hten : reachable Example.ten).
  { apply (reach_add_seq init "q1" "acdefghikl" 0); [apply reach_init|].
    vm_compute. reflexivity. }
  destruct (passes_keys _ _ _ _ _ _ _ Hten eq_refl eq_refl E)
    as (_ & _ & _ & _ & _ & H).
  assert (G : get_structures
                (Example.stored
                   (add_structures
                      (Example.stored
                         (add_accessions Example.ten "q1" ["P12345"]
                            "ACDEFGHIKL" true))
                      "q1" ["pdb"; "1ABC"] "ACDEFGHIKL" true)) "q1"
              = Some ["pdb"; "1ABC"]) by (vm_compute; reflexivity).
  split; [exact G|]. exact (proj1 (H "q1" _ G)).
Defined.

End MainFlow.

(** ** fp.py: [new_output_folder] *)

Section OutputFolder.
Import PyStr Seqs Spec.

Lemma new_folder_some fuel existing :
  forall d d',
    Fp.new_output_folder fuel existing d = Some d' ->
    exists k, (k <= fuel)%nat /\ d' = iter_bump k d
              /\ (d' ∉ existing)
              /\ forall j, (j < k)%nat -> iter_bump j d ∈ existing.
Proof.
  induction fuel as [|fuel IH]; intros d d'; cbn [Fp.new_output_folder].
  - destruct (bool_decide (d ∈ existing)) eqn:E; [discriminate|]. intros [= <-].
    apply bool_decide_eq_false in E.
    exists O. repeat split; [lia | exact E | intros j Hj; lia].
  - destruct (bool_decide (d ∈ existing)) eqn:E.
    + apply bool_decide_eq_true in E. intros H.
      destruct (IH _ _ H) as (k & Hk & -> & Hfree & Hbusy).
      exists (S k). repeat split; [lia | exact Hfree |].
      intros [|j] Hj; [exact E | apply Hbusy; lia].
    + intros [= <-]. apply bool_decide_eq_false in E.
      exists O. repeat split; [lia | exact E | intros j Hj; lia].
Qed.

Lemma new_folder_none fuel existing :
  forall d,
    Fp.new_output_folder fuel existing d = None ->
    forall j, (j <= fuel)%nat -> iter_bump j d ∈ existing.
Proof.
  induction fuel as [|fuel IH]; intros d; cbn [Fp.new_output_folder].
  - destruct (bool_decide (d ∈ existing)) eqn:E; [|discriminate].
    apply bool_decide_eq_true in E. intros _ j Hj. replace j with O by lia. exact E.
  - destruct (bool_decide (d ∈ existing)) eqn:E; [|discriminate].
    apply bool_decide_eq_true in E.
    intros H [|j] Hj; [exact E | apply (IH _ H); lia].
Qed.

(** X21. [new_output_folder] ends within as many rounds as there are
    paths that exist, whatever the path it starts from: the paths it tries
    are pairwise different. The folder it makes did not exist, and every path
    tried before it did. From the default path the paths tried are [./out],
    [./out_2], [./out_3], and so on. *)
Theorem new_output_folder_result (existing : gset string) (path : string) :
  (exists k,
      Fp.new_output_folder (size existing) existing path
      = Some (iter_bump k path)
      /\ (iter_bump k path ∉ existing)
      /\ (forall j, (j < k)%nat -> iter_bump j path ∈ existing)
      /\ (k <= size existing)%nat)
  /\ iter_bump 0 Fp.PATH = "./out"
  /\ forall j, iter_bump (S j) Fp.PATH = suffixed "./out" (S (S j)).
Proof.
  split; [|split; [reflexivity | intros j; apply iter_bump_plain; reflexivity]].
  destruct (Fp.new_output_folder (size existing) existing path) as [d'|] eqn:E.
  - destruct (new_folder_some _ _ _ _ E) as (k & Hk & -> & Hfree & Hbusy).
    exists k. auto.
  - exfalso. pose proof (new_folder_none _ _ _ E) as Hall.
    set (tried := (fun j => iter_bump j path) <$> seq 0 (S (size existing))).
    assert (Hnd : NoDup tried).
    { apply NoDup_fmap_2_strong; [|apply NoDup_seq].
      intros i j _ _. apply iter_bump_inj. }
    assert (Hin : forall x, x ∈ tried -> x ∈ elements existing).
    { intros x (j & -> & Hj)%list_elem_of_fmap. apply elem_of_elements, Hall.
      apply elem_of_seq in Hj. lia. }
    pose proof (submseteq_length _ _ (NoDup_submseteq _ _ Hnd Hin)) as Hlen.
    unfold tried in Hlen. rewrite length_fmap, length_seq in Hlen.
    unfold size, set_size in Hlen. cbn in Hlen. lia.
Qed.

End OutputFolder.

(** ** bl.py: [process] on the reports of [run] *)

Section RunProcess.
Import PyStr Seqs Bl Spec.

Lemma annotate_spec st raw :
  forall reports,
    annotate st raw = Ok reports ->
    Forall (fun r => exists d, query_title r = Some d
                               /\ query_seq r = Some (Dict.get d (_seqs st)))
           reports.
Proof.
  induction raw as [|r raw IH]; intros reports; cbn [annotate].
  - intros [= <-]. constructor.
  - destruct (query_title r) as [d|]; [|discriminate].
    destruct (annotate st raw) as [reports'| | |]; cbn [mbind result_bind];
      try discriminate.
    intros [= <-]. constructor; [|apply IH; reflexivity].
    exists d. split; reflexivity.
Qed.

Lemma process_loop_count convert l reports :
  Forall (fun r => exists d, query_title r = Some d
                             /\ query_seq r = Some (Dict.get d l)) reports ->
  forall cur c0 c st',
    reachable cur -> _seqs cur = l ->
    Forall (fun d => plain d = true) (Dict.keys l) ->
    process_loop convert reports cur c0 = Ok (c, st') ->
    c = c0 + Z.of_nat (length (List.filter (fun r => negb (titled l r)) reports)).
Proof.
  induction 1 as [|r reports (d & Hd & Hs) _ IH]; intros cur c0 c st' Hcur Hl Hplain.
  - cbn. intros [= <- <-]. lia.
  - cbn [process_loop List.filter]. unfold titled at 1. rewrite Hd, Hs.
    unfold Dict.has. destruct (Dict.get d l) as [s|] eqn:Eget.
    + cbn [negb]. assert (Hget : get_seq cur d = Some s)
        by (unfold get_seq; rewrite Hl; exact Eget).
      pose proof (reachable_wf cur Hcur) as [_ _ Hu _].
      rewrite bool_decide_eq_true_2 by (apply Hu, get_seq_value with d, Hget).
      cbn [negb]. change (default EmptyString (Some s)) with s.
      destruct (query_len r) as [q_len|]; [|discriminate].
      destruct (hits r) as [hs|]; [|discriminate].
      destruct (hits_loop hs q_len ["pdb"] []) as [[p a]| | |];
        cbn [mbind result_bind fst snd]; try discriminate.
      destruct (if (0 <? length a)%nat then convert a else Ok a)
        as [accs| | |]; cbn [mbind result_bind]; try discriminate.
      assert (Hself : forall st, reachable st -> _seqs st = l ->
                                 _verify_dscrptr st d s = Ok d /\ d <> EmptyString).
      { intros st Hst Hseqs.
        assert (Hg : get_seq st d = Some s)
          by (unfold get_seq; rewrite Hseqs; exact Eget).
        split.
        - apply verify_plain_self; [exact Hst| |exact Hg].
          rewrite Forall_forall in Hplain. apply Hplain.
          rewrite <- Hseqs. apply (get_stored st d s Hg).
        - pose proof (reachable_tidy st Hst) as Ht. rewrite Forall_forall in Ht.
          apply (Ht d), (get_stored st d s Hg). }
      destruct (add_accessions cur d accs s true) as [[b st1]| | |] eqn:Ea;
        cbn [mbind result_bind fst snd]; try discriminate.
      assert (Hst1 : reachable st1) by (eapply reach_add_accessions; eassumption).
      pose proof (add_accessions_seqs _ _ _ _ _ _ _ Ea) as (Hs1 & _).
      assert (Hb : b = true).
      { revert Ea. unfold add_accessions.
        destruct (Hself cur Hcur Hl) as [-> Hne].
        cbn [mbind result_bind andb]. apply String.eqb_neq in Hne. rewrite Hne.
        destruct (0 <? length accs)%nat; intros [= <- _]; reflexivity. }
      subst b. cbn [negb].
      destruct (add_structures st1 d p s true) as [[b2 st2]| | |] eqn:Es;
        cbn [mbind result_bind fst snd]; try discriminate.
      pose proof (add_structures_seqs _ _ _ _ _ _ _ Es) as (Hs2 & _).
      apply IH; [|congruence|exact Hplain].
      eapply reach_add_structures; eassumption.
    + cbn [negb length]. intros H.
      rewrite (IH cur (c0 + 1) c st' Hcur Hl Hplain H). lia.
Qed.

(** X22. [run] copies into each report the sequence stored for its title.
    On a registry built by the operations, whose descriptors have none of
    the characters special in a pattern, [process] on such reports counts
    exactly the reports whose title is no descriptor of the registry: every
    report of a stored descriptor passes both the membership test and the
    verification of [add_accessions]. *)
Theorem process_after_run (convert : list string -> result (list string))
    (raw reports : list report) (st : Seqs.t) (c : Z) (st' : Seqs.t) :
  reachable st ->
  Forall (fun d => plain d = true) (dscrptrs st) ->
  annotate st raw = Ok reports ->
  process convert reports st = Ok (c, st') ->
  c = Z.of_nat (length (strangers st reports))
  /\ length reports = length raw.
Proof.
  intros Hst Hplain Hraw Hrun. split.
  - unfold process in Hrun. unfold strangers.
    apply (process_loop_count convert (_seqs st) reports
             (annotate_spec st raw reports Hraw) st 0 c st' Hst eq_refl Hplain Hrun).
  - clear Hrun. revert reports Hraw.
    induction raw as [|r raw IH]; intros reports; cbn [annotate].
    + intros [= <-]. reflexivity.
    + destruct (query_title r); [|discriminate].
      destruct (annotate st raw) as [reports'| | |]; cbn [mbind result_bind];
        try discriminate.
      intros [= <-]. cbn [length]. f_equal. apply IH. reflexivity.
Qed.

(** The theorem at the registry with one sequence of length 10 and the
    reports of two searches, of which the second has a title the registry
    does not have. *)
Lemma process_after_run_witness :
  exists reports st',
    annotate Example.ten [Example.raw_ten; Example.raw_other] = Ok reports
    /\ process Example.convert1 reports Example.ten = Ok (1, st')
    /\ length (strangers Example.ten reports) = 1%nat.
Proof.
  assert (Hten : reachable Example.ten).
  { apply (reach_add_seq init "q1" "acdefghikl" 0); [apply reach_init|].
    vm_compute. reflexivity. }
  assert (Ea : annotate Example.ten [Example.raw_ten; Example.raw_other]
               = Ok [Example.report_ten;
                     Report (Some "q9") (Some None) (Some 10)
                            (Some [Example.hit_a])])
    by (vm_compute; reflexivity).
  assert (Ep : exists st',
             process Example.convert1
               [Example.report_ten;
                Report (Some "q9") (Some None) (Some 10) (Some [Example.hit_a])]
               Example.ten = Ok (1, st'))
    by (eexists; vm_compute; reflexivity).
  destruct Ep as [st' Ep].
  assert (Hplain : Forall (fun d => plain d = true) (dscrptrs Example.ten))
    by (repeat constructor).
  destruct (process_after_run Example.convert1 _ _ Example.ten 1 st'
              Hten Hplain Ea Ep) as [Hc _].
  eexists _, st'. split; [exact Ea|]. split; [exact Ep|]. lia.
Defined.

End RunProcess.

(** ** bl.py: [extractseq] on the reports of [run] *)

Section RunExtract.
Import PyStr Seqs Bl Spec.

Lemma annotate_entries st raw es :
  Forall2 (fun r e => query_title r = Some (fst e)) raw es ->
  (forall e, e ∈ es -> get_seq st (fst e) = Some (snd e)) ->
  exists reports,
    annotate st raw = Ok reports
    /\ Forall2 (fun r e => query_title r = Some (fst e)
                           /\ query_seq r = Some (Some (snd e))) reports es.
Proof.
  induction 1 as [|r e raw es Hr _ IH]; intros Hget.
  - exists []. split; [reflexivity | constructor].
  - destruct IH as (reports & Ha & Hall).
    { intros e' He'. apply Hget. right. exact He'. }
    cbn [annotate]. rewrite Hr, Ha. cbn [mbind result_bind].
    eexists. split; [reflexivity|]. constructor; [|exact Hall].
    cbn [query_title query_seq]. rewrite (Hget e) by left. auto.
Qed.

Lemma extract_loop_entries reports es :
  Forall2 (fun r e => query_title r = Some (fst e)
                      /\ query_seq r = Some (Some (snd e))) reports es ->
  forall cur,
    addable cur es ->
    exists st',
      extract_loop reports cur = Some (Ok st')
      /\ _seqs st' = _seqs cur ++ es
      /\ (forall x, x ∈ seqs st' <-> x ∈ seqs cur \/ x ∈ Dict.values es).
Proof.
  induction 1 as [|r [d s] reports es [Hd Hs] _ IH]; intros cur Hadd.
  - exists cur. split; [reflexivity|]. rewrite app_nil_r. split; [reflexivity|].
    intros x. cbn. rewrite elem_of_nil. tauto.
  - cbn [addable fst snd] in *. destruct Hadd as (Ht & Hfree & Hv & Hnew & Hadd).
    cbn [extract_loop]. rewrite Hd, Hs, (add_seq_fresh cur d s Ht Hfree Hv Hnew).
    destruct (IH _ Hadd) as (st' & -> & H1 & H2).
    exists st'. split; [reflexivity|]. unfold added in H1, H2. unfold seqs in *.
    cbn [_seqs _useqs] in H1, H2. split; [rewrite H1, <- app_assoc; reflexivity|].
    intros x. rewrite H2, elem_of_union, elem_of_singleton.
    cbn [Dict.values map snd]. rewrite elem_of_cons. tauto.
Qed.

(** X23. Starting again from a saved search gives the same entries: when
    the reports of [run] are those of the descriptors of a registry built by
    the operations, one for each descriptor and in their order, [run] can
    copy a sequence into each of them, and [extractseq] on the result returns
    a registry with the same descriptors and the same sequences in the same
    order. *)
Theorem extractseq_after_run (st : Seqs.t) (raw : list report) :
  reachable st ->
  Forall2 (fun r d => query_title r = Some d) raw (dscrptrs st) ->
  exists reports st',
    annotate st raw = Ok reports
    /\ extractseq reports = Some (Ok st')
    /\ _seqs st' = _seqs st
    /\ seqs st' = seqs st.
Proof.
  intros Hst Hraw. pose proof (reachable_wf st Hst) as [Hk Hv Hu Hok].
  pose proof (reachable_tidy st Hst) as Htidy. rewrite Forall_forall in Htidy.
  destruct (annotate_entries st raw (_seqs st)) as (reports & Ha & Hall).
  { unfold dscrptrs, Dict.keys in Hraw. apply Forall2_fmap_r in Hraw. exact Hraw. }
  { intros [d s] Hin. apply In_get; assumption. }
  destruct (extract_loop_entries reports (_seqs st) Hall init) as (st' & He & H1 & H2).
  { apply addable_entries.
    - apply Forall_forall. intros [d s] Hin. cbn [fst snd]. split.
      + apply Htidy. unfold dscrptrs, Dict.keys.
        apply list_elem_of_fmap. exists (d, s). auto.
      + apply Hok. unfold Dict.values.
        apply list_elem_of_fmap. exists (d, s). auto.
    - exact Hk.
    - exact Hv.
    - intros x _. split; [apply not_elem_of_nil | apply not_elem_of_empty]. }
  exists reports, st'. split; [exact Ha|]. split; [exact He|].
  split; [exact H1|]. apply set_eq. intros x. rewrite H2, Hu.
  split; [intros [H|H]; [|exact H] | auto].
  apply not_elem_of_empty in H. contradiction.
Qed.

(** The theorem at the registry with one sequence of length 10 and the
    report of its search. *)
Lemma extractseq_after_run_witness :
  exists reports st',
    annotate Example.ten [Example.raw_ten] = Ok reports
    /\ extractseq reports = Some (Ok st')
    /\ _seqs st' = _seqs Example.ten.
Proof.
  assert (Hten : reachable Example.ten).
  { apply (reach_add_seq init "q1" "acdefghikl" 0); [apply reach_init|].
    vm_compute. reflexivity. }
  assert (Hraw : Forall2 (fun r d => query_title r = Some d)
                   [Example.raw_ten] (dscrptrs Example.ten))
    by (repeat constructor).
  destruct (extractseq_after_run Example.ten [Example.raw_ten] Hten Hraw)
    as (reports & st' & H1 & H2 & H3 & _).
  exists reports, st'. auto.
Defined.

End RunExtract.

(** ** bl.py and pd.py: identifiers without chain or entity numbers *)

Section ChainIds.
Import PyStr Bl Spec.

Lemma cut_no_underscore s :
  match cut s with
  | Some (h, _) => no_underscore h = true
  | None => no_underscore s = true
  end.
Proof.
  induction s as [|c s IH]; [reflexivity|]. cbn [cut no_underscore].
  destruct (Ascii.eqb c "_") eqn:Ec; [reflexivity|].
  destruct (cut s) as [[h t]|]; cbn [no_underscore negb andb]; rewrite ?Ec; exact IH.
Qed.

Lemma base_no_underscore x : no_underscore (base x) = true.
Proof.
  unfold base, split1. pose proof (cut_no_underscore x) as H.
  destruct (cut x) as [[h t]|]; exact H.
Qed.

Lemma fold_add_new_forall (P : string -> Prop) l :
  forall p, Forall P p -> Forall P l -> Forall P (fold_left add_new l p).
Proof.
  induction l as [|x l IH]; intros p Hp Hl; [exact Hp|].
  apply Forall_cons in Hl as [Hx Hl]. cbn [fold_left]. apply IH; [|exact Hl].
  unfold add_new. destruct (mem x p); [exact Hp|].
  apply Forall_app. split; [exact Hp|]. constructor; [exact Hx | constructor].
Qed.

Lemma bases_no_underscore ids :
  Forall (fun x => no_underscore x = true) (map base ids).
Proof.
  induction ids as [|i ids IH]; [constructor|].
  constructor; [apply base_no_underscore | exact IH].
Qed.

(** X24. The identifiers [process] and [uniprot_to_pdb] add to a list of
    structures have no underscore: the chain or entity number is cut off at
    the first underscore, so a list that had no underscore in any element
    has none after a hit, after all hits of a query, and after the search
    for the accessions of a descriptor. *)
Theorem chain_ids_removed :
  (forall (h : hit) (pdbs accs : list string),
      Forall (fun x => no_underscore x = true) pdbs ->
      Forall (fun x => no_underscore x = true)
             (fst (_acc_pdb_from_hit h pdbs accs)))
  /\ (forall (hs : list hit) (q_len : Z) (pdbs accs p a : list string),
         hits_loop hs q_len pdbs accs = Ok (p, a) ->
         Forall (fun x => no_underscore x = true) pdbs ->
         Forall (fun x => no_underscore x = true) p)
  /\ (forall (search : string -> Pd.response)
             (accs pdbs asked p asked' : list string),
         Pd.accession_loop search accs pdbs asked = Ok (p, asked') ->
         Forall (fun x => no_underscore x = true) pdbs ->
         Forall (fun x => no_underscore x = true) p).
Proof.
  assert (Hhit : forall (h : hit) (pdbs accs : list string),
             Forall (fun x => no_underscore x = true) pdbs ->
             Forall (fun x => no_underscore x = true)
                    (fst (_acc_pdb_from_hit h pdbs accs))).
  { intros h pdbs accs Hp. unfold _acc_pdb_from_hit. rewrite acc_pdb_loop_spec.
    cbn [fst]. apply fold_add_new_forall; [exact Hp|]. unfold pdb_bases.
    rewrite <- (map_map accession base). apply bases_no_underscore. }
  split; [exact Hhit|]. split.
  - intros hs q_len. induction hs as [|h hs IH]; intros pdbs accs p a; cbn [hits_loop].
    + intros [= <- <-]. auto.
    + destruct (_checkhit h q_len) as [[]| | |]; cbn [mbind result_bind];
        try discriminate.
      * intros H Hp. eapply IH; [exact H|]. apply Hhit, Hp.
      * apply IH.
  - intros search accs. induction accs as [|x accs IH]; intros pdbs asked p asked';
      cbn [Pd.accession_loop].
    + intros [= <- <-]. auto.
    + destruct (search x) as [| | | |ids]; try discriminate.
      * intros [= <- <-]. auto.
      * intros H Hp. eapply IH; [exact H|]. rewrite fold_add_unique.
        apply fold_add_new_forall; [exact Hp|]. apply bases_no_underscore.
Qed.

End ChainIds.
